(** * Kibana fragments: pre-routing interceptor adapter, TaskRunnerFactory,
      fetchFields

    A shallow embedding of three source fragments:
    - [OnPreRouting]: the adapter of an OnPreRouting handler to Hapi's
      request lifecycle ([adoptToHapiOnRequest]), with its result variants
      and type guards;
    - [TaskRunnerFactory]: the alerting plugin's task runner factory;
    - [FetchFields]: vis_type_timeseries/public/application/lib/fetch_fields.js;
    - [FilterGroup]: the filter group component of the uptime overview.

    JavaScript values are modelled by an inductive type, mutable objects by
    explicit state passing, and [throw]/[try]/[catch] by a completion type
    threaded through a small state-and-exception monad. *)

From stdpp Require Import base option list strings pretty gmap.
From Equations Require Import Equations.

Local Open Scope Z_scope.

(** ** Completions: normal return or abrupt [throw] *)

(** An [Error] object, as far as the code reads it. *)
Record JsError : Type := {
  name : string;
  message : string
}.

(** What a [throw] statement (or a rejected promise) carries: an [Error]
    object or any other value. *)
Inductive Thrown (V : Type) : Type :=
| ThrownError (e : JsError)
| ThrownValue (v : V).
Arguments ThrownError {V} e.
Arguments ThrownValue {V} v.

Inductive Completion (E A : Type) : Type :=
| Normal (a : A)
| Throw (e : E).
Arguments Normal {E A} a.
Arguments Throw {E A} e.

(** A computation over a mutable store [S] that may throw an [E]. The store
    survives a throw: effects performed before it stay performed. *)
Definition Eff (S E A : Type) : Type := S -> Completion E A * S.

Definition ret {S E A} (a : A) : Eff S E A := fun s => (Normal a, s).

Definition throw {S E A} (e : E) : Eff S E A := fun s => (Throw e, s).

Definition bind {S E A B} (m : Eff S E A) (k : A -> Eff S E B) : Eff S E B :=
  fun s =>
    match m s with
    | (Normal a, s') => k a s'
    | (Throw e, s') => (Throw e, s')
    end.

Definition try_catch {S E A} (body : Eff S E A) (handler : E -> Eff S E A)
  : Eff S E A :=
  fun s =>
    match body s with
    | (Normal a, s') => (Normal a, s')
    | (Throw e, s') => handler e s'
    end.

Definition gets {S E A} (f : S -> A) : Eff S E A := fun s => (Normal (f s), s).

Definition modify {S E} (f : S -> S) : Eff S E unit := fun s => (Normal tt, f s).

Declare Scope eff_scope.
Delimit Scope eff_scope with eff.
Notation "x <- m ;; k" := (bind m (fun x => k))
  (at level 100, m at next level, right associativity) : eff_scope.
Notation "m ;;; k" := (bind m (fun _ => k))
  (at level 100, right associativity) : eff_scope.

(** * The pre-routing interceptor adapter *)

Module OnPreRouting.

(** ** Values a handler can hand back at run time *)

(** Modelled from the spec: [KibanaResponse] lives in ../router, which is not
    part of the fragment; the spec only says that an explicit response has
    a status and a body. *)
Record KibanaResponse : Type := {
  status : Z;
  payload : option string
}.

(** The handler is typed in TypeScript, but the adapter inspects its result
    at run time and has a branch for results outside the type. A value is
    a primitive, an instance of [KibanaResponse], or a plain object with an
    optional [type] property and an optional [url] property (a string, as
    the [RewriteUrl] interface has it). *)
Inductive JsValue : Type :=
| JsUndefined
| JsNull
| JsBoolean (b : bool)
| JsNumber (n : Z)
| JsString (s : string)
| JsObject (type_ : option string) (url_ : option string)
| JsKibanaResponse (r : KibanaResponse).

(** [enum ResultType { next = 'next', rewriteUrl = 'rewriteUrl' }] *)
Module ResultType.
Definition next : string := "next".
Definition rewriteUrl : string := "rewriteUrl".
End ResultType.

(** Truthiness, as the left operand of [&&] sees it. *)
Definition truthy (v : JsValue) : bool :=
  match v with
  | JsUndefined | JsNull => false
  | JsBoolean b => b
  | JsNumber n => negb (n =? 0)
  | JsString s => negb (String.eqb s "")
  | JsObject _ _ | JsKibanaResponse _ => true
  end.

(** [result.type] on a value that is neither [undefined] nor [null]:
    [None] stands for [undefined]. *)
Definition get_type (v : JsValue) : option string :=
  match v with
  | JsObject t _ => t
  | _ => None
  end.

(** [result.url], as the destructuring [const { url } = result] reads it. *)
Definition get_url (v : JsValue) : option string :=
  match v with
  | JsObject _ u => u
  | _ => None
  end.

(** [value === 'literal'] where the value may be [undefined]. *)
Definition strict_eq_string (v : option string) (s : string) : bool :=
  match v with
  | Some t => String.eqb t s
  | None => false
  end.

(** [result instanceof KibanaResponse] *)
Definition instanceof_KibanaResponse (v : JsValue) : bool :=
  match v with
  | JsKibanaResponse _ => true
  | _ => false
  end.

(** [String(result)], as the template literal of the error message does it. *)
Definition to_string (v : JsValue) : string :=
  match v with
  | JsUndefined => "undefined"
  | JsNull => "null"
  | JsBoolean true => "true"
  | JsBoolean false => "false"
  | JsNumber n => pretty n
  | JsString s => s
  | JsObject _ _ | JsKibanaResponse _ => "[object Object]"
  end.

(** ** [preRoutingResult]: the two factories and the two type guards *)

Module preRoutingResult.
Definition next (_ : unit) : JsValue :=
  JsObject (Some ResultType.next) None.

Definition rewriteUrl (url : string) : JsValue :=
  JsObject (Some ResultType.rewriteUrl) (Some url).

Definition isNext (result : JsValue) : bool :=
  truthy result && strict_eq_string (get_type result) ResultType.next.

Definition isRewriteUrl (result : JsValue) : bool :=
  truthy result && strict_eq_string (get_type result) ResultType.rewriteUrl.
End preRoutingResult.

Record OnPreRoutingToolkit : Type := {
  tk_next : unit -> JsValue;
  tk_rewriteUrl : string -> JsValue
}.

Definition toolkit : OnPreRoutingToolkit := {|
  tk_next := preRoutingResult.next;
  tk_rewriteUrl := preRoutingResult.rewriteUrl
|}.

(** ** The in-flight request and what the handler sees of it *)

(** Modelled from the spec: [KibanaRequestState] is declared in ../router;
    the spec gives it an optional "original URL before rewrite" field. *)
Record KibanaRequestState : Type := {
  rewrittenUrl : option string
}.

(** The fields of Hapi's [Request] that the adapter reads or writes:
    [request.url] (the URL the server routes on), [request.raw.req.url] and
    [request.app]. *)
Record HapiRequest : Type := {
  url : string;
  raw_req_url : string;
  app : KibanaRequestState
}.

Definition set_rewrittenUrl (o : option string) (r : HapiRequest) : HapiRequest :=
  {| url := url r; raw_req_url := raw_req_url r; app := {| rewrittenUrl := o |} |}.

Definition set_raw_req_url (u : string) (r : HapiRequest) : HapiRequest :=
  {| url := url r; raw_req_url := u; app := app r |}.

Definition set_url (u : string) (r : HapiRequest) : HapiRequest :=
  {| url := u; raw_req_url := raw_req_url r; app := app r |}.

(** Modelled from the spec: [KibanaRequest.from] is defined in ../router; the
    spec calls its result a read-only view over the native request. *)
Record KibanaRequest : Type := {
  kr_url : string;
  kr_rewrittenUrl : option string
}.

Definition KibanaRequest_from (r : HapiRequest) : KibanaRequest :=
  {| kr_url := url r; kr_rewrittenUrl := rewrittenUrl (app r) |}.

(** Modelled from the spec: [lifecycleResponseFactory] is defined in
    ../router; the handler uses it to build explicit responses. *)
Record LifecycleResponseFactory : Type := {
  custom : Z -> option string -> KibanaResponse
}.

Definition lifecycleResponseFactory : LifecycleResponseFactory :=
  {| custom := fun st body => {| status := st; payload := body |} |}.

(** What a call [fn(...)] followed by [await] can observe: the handler
    returns a value, throws, or returns a promise that fulfils or rejects. *)
Inductive HandlerOutcome : Type :=
| Returns (v : JsValue)
| Throws (e : Thrown JsValue)
| Resolves (v : JsValue)
| Rejects (e : Thrown JsValue).

Definition OnPreRoutingHandler : Type :=
  KibanaRequest -> LifecycleResponseFactory -> OnPreRoutingToolkit -> HandlerOutcome.

(** ** The host server's side *)

(** [Lifecycle.ReturnValue]: the toolkit's [continue] signal or a native
    response. *)
Inductive LifecycleReturnValue : Type :=
| Continue
| NativeResponse (statusCode : Z) (source : option string)
| InternalServerError.

(** Modelled from the spec: [HapiResponseAdapter] is defined in ../router.
    The spec gives it two capabilities: convert an explicit response into
    the native response type, and produce a generic internal-error native
    response. *)
Module HapiResponseAdapter.
Definition handle (r : KibanaResponse) : LifecycleReturnValue :=
  NativeResponse (status r) (payload r).

Definition toInternalError : LifecycleReturnValue := InternalServerError.
End HapiResponseAdapter.

(** The store the lifecycle function works on: the request object it was
    handed, and the records the supplied logger has received through
    [log.error]. *)
Record World : Type := {
  request : HapiRequest;
  logged : list (Thrown JsValue)
}.

Definition Hapi (A : Type) : Type := Eff World (Thrown JsValue) A.

Definition with_request (f : HapiRequest -> HapiRequest) (w : World) : World :=
  {| request := f (request w); logged := logged w |}.

(** [log.error(error)] *)
Definition log_error (error : Thrown JsValue) : Hapi unit :=
  modify (fun w => {| request := request w; logged := logged w ++ [error] |}).

(** What [await fn(...)] evaluates to, or throws. *)
Definition settle (o : HandlerOutcome) : Completion (Thrown JsValue) JsValue :=
  match o with
  | Returns v | Resolves v => Normal v
  | Throws e | Rejects e => Throw e
  end.

(** [await fn(...)] *)
Definition await (o : HandlerOutcome) : Hapi JsValue := fun w => (settle o, w).

(** [a ?? b] *)
Definition nullish_coalesce {A : Type} (a : option A) (b : A) : A :=
  match a with
  | Some x => x
  | None => b
  end.

(** ** The string rebuild *)

(** [url[i]] appended to a string: the i-th character, or the text
    "undefined" out of range. *)
Definition char_at (url : string) (i : nat) : string :=
  match String.get i url with
  | Some c => String c EmptyString
  | None => "undefined"
  end.

(** [for (let i = 0; i < url.length; i++) { urlCopy += url[i]; }], entered
    with the current [i] and [urlCopy]. *)
Equations rebuild_loop (url : string) (i : nat) (urlCopy : string) : string
  by wf (String.length url - i)%nat lt :=
  rebuild_loop url i urlCopy with decide (i < String.length url)%nat := {
    | left _ => rebuild_loop url (S i) (urlCopy +:+ char_at url i)
    | right _ => urlCopy }.
Next Obligation. lia. Qed.

(** [let urlCopy = ''; for (...) {...}] *)
Definition copy_url (url : string) : string := rebuild_loop url 0 "".

(** ** [adoptToHapiOnRequest] *)

(** [request.setUrl] is Hapi's own method. It is handed a string and the
    request; it may change the request, and it may throw. *)
Definition URLSetter : Type :=
  string -> HapiRequest -> Completion (Thrown JsValue) unit * HapiRequest.

Section Adapter.

Variable setUrl : URLSetter.

Definition request_setUrl (u : string) : Hapi unit :=
  fun w =>
    let '(c, r') := setUrl u (request w) in
    (c, {| request := r'; logged := logged w |}).

(** The body of the [isRewriteUrl] branch. *)
Definition rewrite_branch (result : JsValue) : Hapi LifecycleReturnValue :=
  (modify (with_request (fun r =>
     set_rewrittenUrl (Some (nullish_coalesce (rewrittenUrl (app r)) (url r))) r)) ;;;
   match get_url result with
   | None =>
       throw (ThrownError
                {| name := "TypeError";
                   message := "Cannot read property 'length' of undefined" |})
   | Some url =>
       let urlCopy := copy_url url in
       request_setUrl urlCopy ;;;
       modify (with_request (set_raw_req_url url)) ;;;
       ret Continue
   end)%eff.

Definition unexpected_result (result : JsValue) : Thrown JsValue :=
  ThrownError
    {| name := "Error";
       message :=
         "Unexpected result from OnPreRouting. Expected OnPreRoutingResult or KibanaResponse, but given: "
         +:+ to_string result +:+ "." |}.

Definition interceptPreRoutingRequest (fn : OnPreRoutingHandler)
  : Hapi LifecycleReturnValue :=
  try_catch
    (r <- gets request ;;
     result <- await (fn (KibanaRequest_from r) lifecycleResponseFactory toolkit) ;;
     match result with
     | JsKibanaResponse response => ret (HapiResponseAdapter.handle response)
     | _ =>
         if preRoutingResult.isNext result then ret Continue
         else if preRoutingResult.isRewriteUrl result then rewrite_branch result
         else throw (unexpected_result result)
     end)%eff
    (fun error => log_error error ;;; ret HapiResponseAdapter.toInternalError)%eff.

(** The logger is the [logged] component of the store, so the [log]
    argument has no counterpart here. *)
Definition adoptToHapiOnRequest (fn : OnPreRoutingHandler)
  : Hapi LifecycleReturnValue :=
  interceptPreRoutingRequest fn.

(** Hapi runs the registered [onRequest] extensions of one request in
    order, on the same request object, for as long as each of them
    returns [continue]. *)
Fixpoint onRequest (fns : list OnPreRoutingHandler) : Hapi LifecycleReturnValue :=
  match fns with
  | [] => ret Continue
  | fn :: rest =>
      (out <- adoptToHapiOnRequest fn ;;
       match out with
       | Continue => onRequest rest
       | _ => ret out
       end)%eff
  end.

End Adapter.

(** ** Vocabulary of the properties *)

(** The setter takes [u]: called with it, it returns normally, having
    replaced the URL of the request and nothing else. *)
Definition setUrl_sets (setUrl : URLSetter) (u : string) : Prop :=
  forall r, setUrl u r = (Normal tt, set_url u r).

(** The setter either takes a URL or throws and leaves the request alone. *)
Definition setUrl_atomic (setUrl : URLSetter) : Prop :=
  forall u r,
    setUrl u r = (Normal tt, set_url u r) \/ exists e, setUrl u r = (Throw e, r).

(** The handler's awaited result is [v], whatever request it is shown. *)
Definition yields (fn : OnPreRoutingHandler) (v : JsValue) : Prop :=
  forall kr, settle (fn kr lifecycleResponseFactory toolkit) = Normal v.

(** Each interceptor of [steps], shown the request as the ones before it
    left it, asks for a rewrite to the URL listed with it, and the setter
    takes that URL. *)
Fixpoint rewrites (setUrl : URLSetter) (steps : list (OnPreRoutingHandler * string))
    (w : World) : Prop :=
  match steps with
  | [] => True
  | step :: rest =>
      settle (fst step (KibanaRequest_from (request w)) lifecycleResponseFactory toolkit)
        = Normal (preRoutingResult.rewriteUrl (snd step)) /\
      setUrl_sets setUrl (snd step) /\
      rewrites setUrl rest (snd (adoptToHapiOnRequest setUrl (fst step) w))
  end.

(** After the run, the URL of the request is [u] and the recorded original
    is the one recorded before, or else the URL the request had. *)
Definition rewrite_takes_effect (setUrl : URLSetter) (fn : OnPreRoutingHandler)
    (u : string) (w : World) : Prop :=
  let '(_, w') := interceptPreRoutingRequest setUrl fn w in
  url (request w') = u /\
  rewrittenUrl (app (request w')) =
    Some (nullish_coalesce (rewrittenUrl (app (request w))) (url (request w))).

(** All three effects of a rewrite to [u] are in place in [after]. *)
Definition rewrite_applied (u : string) (before after : HapiRequest) : Prop :=
  url after = u /\ raw_req_url after = u /\
  rewrittenUrl (app after) =
    Some (nullish_coalesce (rewrittenUrl (app before)) (url before)).

(** A run of the lifecycle function is all-or-nothing: the rewrite to [u]
    is complete and the server is told to proceed, or the request is as it
    was and the server gets the internal error. *)
Definition all_or_nothing (setUrl : URLSetter) (fn : OnPreRoutingHandler)
    (u : string) (w : World) : Prop :=
  let '(out, w') := interceptPreRoutingRequest setUrl fn w in
  (out = Normal Continue /\ rewrite_applied u (request w) (request w'))
  \/ (out = Normal InternalServerError /\ request w' = request w).

(** The weaker guarantee: on the error side the request is as it was but
    for the original URL, which has been recorded. *)
Definition fails_closed (setUrl : URLSetter) (fn : OnPreRoutingHandler)
    (u : string) (w : World) : Prop :=
  let '(out, w') := interceptPreRoutingRequest setUrl fn w in
  (out = Normal Continue /\ rewrite_applied u (request w) (request w'))
  \/ (out = Normal InternalServerError /\
      request w' =
        set_rewrittenUrl
          (Some (nullish_coalesce (rewrittenUrl (app (request w))) (url (request w))))
          (request w)).

(** ** Setters, handlers and requests to run the adapter on *)

Module Samples.

(** A setter that takes every string. *)
Definition plain_setUrl : URLSetter := fun u r => (Normal tt, set_url u r).

(** A setter that takes the strings starting with a slash and throws on
    the others, before it has touched the request. *)
Definition strict_setUrl : URLSetter :=
  fun u r =>
    if String.eqb (String.substring 0 1 u) "/" then (Normal tt, set_url u r)
    else (Throw (ThrownError {| name := "TypeError"; message := "Invalid URL" |}), r).

Definition rewrite_to (u : string) : OnPreRoutingHandler :=
  fun _ _ toolkit => Returns (tk_rewriteUrl toolkit u).

Definition rewrite_to_later (u : string) : OnPreRoutingHandler :=
  fun _ _ toolkit => Resolves (tk_rewriteUrl toolkit u).

(** A handler whose rewrite depends on the request it is shown. *)
Definition append_segment (segment : string) : OnPreRoutingHandler :=
  fun request _ toolkit => Returns (tk_rewriteUrl toolkit (kr_url request +:+ segment)).

Definition pass_on : OnPreRoutingHandler :=
  fun _ _ toolkit => Returns (tk_next toolkit tt).

Definition respond (st : Z) (body : string) : OnPreRoutingHandler :=
  fun _ response _ => Resolves (JsKibanaResponse (custom response st (Some body))).

Definition boom : JsError := {| name := "Error"; message := "boom" |}.

Definition throwing : OnPreRoutingHandler := fun _ _ _ => Throws (ThrownError boom).

Definition rejecting : OnPreRoutingHandler := fun _ _ _ => Rejects (ThrownError boom).

Definition returning (v : JsValue) : OnPreRoutingHandler := fun _ _ _ => Returns v.

(** A request for /old-path that no interceptor has rewritten yet. *)
Definition old_path : World :=
  {| request := {| url := "/old-path"; raw_req_url := "/old-path";
                   app := {| rewrittenUrl := None |} |};
     logged := [] |}.

End Samples.

End OnPreRouting.

(** * The alerting plugin's task runner factory *)

Module TaskRunnerFactory.

Section Factory.

(** The collaborators are opaque here: the context is a bag of services,
    and the alert type and task instance are passed through untouched. *)
Variables (TaskRunnerContext UntypedNormalizedAlertType ConcreteTaskInstance : Type).

(** [RunContext], of which [create] destructures [taskInstance]. *)
Record RunContext : Type := {
  taskInstance : ConcreteTaskInstance
}.

(** [new TaskRunner(alertType, taskInstance, context)]: the three
    constructor arguments. The context argument is
    [this.taskRunnerContext!], which is [undefined] ([None]) when the field
    was never assigned: the [!] is erased at run time. *)
Record TaskRunner : Type := {
  tr_alertType : UntypedNormalizedAlertType;
  tr_taskInstance : ConcreteTaskInstance;
  tr_context : option TaskRunnerContext
}.

(** The two private fields of the class. *)
Record TaskRunnerFactory : Type := {
  isInitialized : bool;
  taskRunnerContext : option TaskRunnerContext
}.

(** [new TaskRunnerFactory()] *)
Definition new_TaskRunnerFactory : TaskRunnerFactory :=
  {| isInitialized := false; taskRunnerContext := None |}.

Definition Method (A : Type) : Type := Eff TaskRunnerFactory JsError A.

Definition already_initialized : JsError :=
  {| name := "Error"; message := "TaskRunnerFactory already initialized" |}.

Definition not_initialized : JsError :=
  {| name := "Error"; message := "TaskRunnerFactory not initialized" |}.

Definition initialize (context : TaskRunnerContext) : Method unit :=
  (initialized <- gets isInitialized ;;
   if initialized then throw already_initialized
   else
     modify (fun this =>
       {| isInitialized := true; taskRunnerContext := taskRunnerContext this |}) ;;;
     modify (fun this =>
       {| isInitialized := isInitialized this; taskRunnerContext := Some context |}))%eff.

Definition create (alertType : UntypedNormalizedAlertType) (runContext : RunContext)
  : Method TaskRunner :=
  (initialized <- gets isInitialized ;;
   if negb initialized then throw not_initialized
   else
     context <- gets taskRunnerContext ;;
     ret {| tr_alertType := alertType;
            tr_taskInstance := taskInstance runContext;
            tr_context := context |})%eff.

(** A client of the factory: a sequence of method calls on one instance.
    A call that throws leaves the instance to the next call as it is. *)
Inductive Call : Type :=
| CallInitialize (context : TaskRunnerContext)
| CallCreate (alertType : UntypedNormalizedAlertType) (runContext : RunContext).

Definition call (c : Call) (this : TaskRunnerFactory) : TaskRunnerFactory :=
  match c with
  | CallInitialize context => snd (initialize context this)
  | CallCreate alertType runContext => snd (create alertType runContext this)
  end.

Definition calls (cs : list Call) (this : TaskRunnerFactory) : TaskRunnerFactory :=
  fold_left (fun this c => call c this) cs this.

End Factory.

Arguments taskInstance {ConcreteTaskInstance} _.
Arguments Build_TaskRunner {TaskRunnerContext UntypedNormalizedAlertType ConcreteTaskInstance}.
Arguments Build_TaskRunnerFactory {TaskRunnerContext}.
Arguments isInitialized {TaskRunnerContext} _.
Arguments taskRunnerContext {TaskRunnerContext} _.
Arguments new_TaskRunnerFactory {TaskRunnerContext}.
Arguments initialize {TaskRunnerContext} context _.
Arguments create {TaskRunnerContext UntypedNormalizedAlertType ConcreteTaskInstance}
  alertType runContext _.
Arguments CallInitialize {TaskRunnerContext UntypedNormalizedAlertType ConcreteTaskInstance}.
Arguments CallCreate {TaskRunnerContext UntypedNormalizedAlertType ConcreteTaskInstance}.
Arguments call {TaskRunnerContext UntypedNormalizedAlertType ConcreteTaskInstance} c this.
Arguments calls {TaskRunnerContext UntypedNormalizedAlertType ConcreteTaskInstance} cs this.

End TaskRunnerFactory.

(** * The index-pattern field fetcher of the timeseries editor *)

Module FetchFields.

Section Fetch.

(** [Fields] is what one GET on [ROUTES.FIELDS] resolves with. *)
Variables (Fields AbortSignal : Type).

(** What a promise is rejected with: an object with a [name] and a
    [message], or [null] or [undefined]. *)
Inductive Reason : Type :=
| ReasonError (error : JsError)
| ReasonNullish.

(** A promise that has run its course: when it settled, and how. *)
Inductive Settlement : Type :=
| Fulfilled (value : Fields)
| RejectedWith (reason : Reason).

(** Rejected with an error object. *)
Definition Rejected (error : JsError) : Settlement := RejectedWith (ReasonError error).

Record Promise : Type := {
  settled_at : nat;
  settlement : Settlement
}.

(** [getCoreStart().http.get(ROUTES.FIELDS, { query: { index: pattern }, signal })],
    for the request issued for the array element at [index]. *)
Variable http_get : nat -> string -> option AbortSignal -> Promise.

(** [i18n.translate(id, { defaultMessage })] *)
Variable i18n_translate : string -> string -> string.

(** [getCoreStart().notifications.toasts]: the danger toasts shown so far. *)
Record Toast : Type := {
  title : string;
  text : string
}.

Definition Async (A : Type) : Type := Eff (list Toast) Reason A.

Definition addDanger (t : Toast) : Async unit := modify (fun toasts => toasts ++ [t]).

(** [Promise.all] rejects with the reason of the input promise that
    rejects first (the one listed first, among those rejecting at the
    same time), and otherwise fulfils with all the values in order. *)
Fixpoint first_rejection (promises : list Promise) : option (nat * Reason) :=
  match promises with
  | [] => None
  | p :: rest =>
      match settlement p, first_rejection rest with
      | Fulfilled _, later => later
      | RejectedWith e, None => Some (settled_at p, e)
      | RejectedWith e, Some (t, e') =>
          if (t <? settled_at p)%nat then Some (t, e') else Some (settled_at p, e)
      end
  end.

Definition fulfilled_values (promises : list Promise) : list Fields :=
  omap (fun p => match settlement p with
                 | Fulfilled v => Some v
                 | RejectedWith _ => None
                 end) promises.

(** [await Promise.all(promises)] *)
Definition await_all (promises : list Promise) : Async (list Fields) :=
  match first_rejection promises with
  | Some (_, e) => throw e
  | None => ret (fulfilled_values promises)
  end.

(** [array.reduce((acc, current, index) => ..., init)], entered at [index]. *)
Fixpoint reduce {A B : Type} (callback : B -> A -> nat -> B)
    (array : list A) (index : nat) (acc : B) : B :=
  match array with
  | [] => acc
  | current :: rest => reduce callback rest (S index) (callback acc current index)
  end.

(** The first argument of [fetchFields]: left out (the default [[]]
    applies), an array of patterns, or a single pattern. *)
Inductive IndexPatterns : Type :=
| Omitted
| AnArray (patterns : list string)
| NotAnArray (pattern : string).

(** The two shapes [fetchFields] resolves with: an object keyed by
    pattern, whose property values are [indexFields[index]] ([None] being
    [undefined]), or the empty array. *)
Inductive FetchFieldsResult : Type :=
| FieldsByPattern (object : gmap string (option Fields))
| EmptyArray.

(** [Array.isArray(indexPatterns) ? indexPatterns : [indexPatterns]], after
    the default value of the parameter. *)
Definition to_patterns (indexPatterns : IndexPatterns) : list string :=
  match indexPatterns with
  | Omitted => []
  | AnArray patterns => patterns
  | NotAnArray pattern => [pattern]
  end.

(** The [TypeError] of reading [error.name] when [error] is [null] or
    [undefined]; the wording of the message is the engine's. *)
Definition cannot_read_name : JsError :=
  {| name := "TypeError"; message := "Cannot read property 'name' of undefined" |}.

(** [error], as [error.name] and [error.message] need it. *)
Definition as_object (error : Reason) : Async JsError :=
  match error with
  | ReasonError object => ret object
  | ReasonNullish => throw (ReasonError cannot_read_name)
  end.

Definition load_error_toast (error : JsError) : Toast :=
  {| title := i18n_translate
                "visTypeTimeseries.fetchFields.loadIndexPatternFieldsErrorMessage"
                "Unable to load index_pattern fields";
     text := message error |}.

(** The [try] block returns from the function; the [catch] block falls
    through to the final [return []]. *)
Definition fetchFields (indexPatterns : IndexPatterns) (signal : option AbortSignal)
  : Async FetchFieldsResult :=
  let patterns := to_patterns indexPatterns in
  (returned <-
     try_catch
       (indexFields <-
          await_all (imap (fun index pattern => http_get index pattern signal) patterns) ;;
        ret (Some (FieldsByPattern
               (reduce
                  (fun (cumulatedFields : gmap string (option Fields))
                       currentPattern index =>
                     <[currentPattern := indexFields !! index]> cumulatedFields)
                  patterns 0%nat ∅))))
       (fun error =>
          error <- as_object error ;;
          (if negb (String.eqb (name error) "AbortError")
           then addDanger (load_error_toast error)
           else ret tt) ;;;
          ret None) ;;
   match returned with
   | Some result => ret result
   | None => ret EmptyArray
   end)%eff.

End Fetch.

Arguments Fulfilled {Fields} value.
Arguments RejectedWith {Fields} reason.
Arguments Rejected {Fields} error.
Arguments settled_at {Fields} _.
Arguments settlement {Fields} _.
Arguments first_rejection {Fields} promises.
Arguments fulfilled_values {Fields} promises.
Arguments await_all {Fields} promises _.
Arguments FieldsByPattern {Fields} object.
Arguments EmptyArray {Fields}.

End FetchFields.

(** * The filter group of the uptime overview *)

Module FilterGroup.

Section Component.

(** [filterLabels], imported from ./translations. *)
Variables (LOCATION PORT SCHEME TAGS : string).

(** [OverviewFilters], as far as the component destructures it. *)
Record OverviewFilters : Type := {
  locations : list string;
  ports : list Z;
  schemes : list string;
  tags : list string
}.

(** What [useSelectedFilters()] returns. *)
Record SelectedFilters : Type := {
  selectedLocations : list string;
  selectedPorts : list string;
  selectedSchemes : list string;
  selectedTags : list string
}.

(** The state kept with [useState]: the last change a popover reported. *)
Record UpdatedFieldValues : Type := {
  updated_fieldName : string;
  updated_values : list string
}.

(** The initial state, [{ fieldName: '', values: [] }]. *)
Definition initial_state : UpdatedFieldValues :=
  {| updated_fieldName := ""; updated_values := [] |}.

(** [FilterPopoverProps]; [disabled] is [None] where the object literal
    has no such property. [onFilterFieldChange] is given by the state it
    sets. *)
Record FilterPopoverProps : Type := {
  loading : bool;
  onFilterFieldChange : string -> list string -> UpdatedFieldValues;
  fieldName : string;
  id : string;
  disabled : option bool;
  items : list string;
  selectedItems : list string;
  title : string
}.

(** [(fieldName, values) => setUpdatedFieldValues({ fieldName, values })] *)
Definition setUpdatedFieldValues_of (fieldName : string) (values : list string)
  : UpdatedFieldValues :=
  {| updated_fieldName := fieldName; updated_values := values |}.

(** [p.toString()] of a port number. *)
Definition toString (p : Z) : string := pretty p.

(** The array [filterPopoverProps]; [isMonitorPage] is whether
    [useRouteMatch(MONITOR_ROUTE)] returned a match. *)
Definition filterPopoverProps (overviewFilters : OverviewFilters) (loading : bool)
    (selected : SelectedFilters) (isMonitorPage : bool) : list FilterPopoverProps :=
  {| loading := loading;
     onFilterFieldChange := setUpdatedFieldValues_of;
     fieldName := "observer.geo.name";
     id := "location";
     disabled := None;
     items := locations overviewFilters;
     selectedItems := selectedLocations selected;
     title := LOCATION |}
  :: (if negb isMonitorPage then
        [ {| loading := loading;
             onFilterFieldChange := setUpdatedFieldValues_of;
             fieldName := "url.port";
             id := "port";
             disabled := Some (length (ports overviewFilters) =? 0)%nat;
             items := map toString (ports overviewFilters);
             selectedItems := selectedPorts selected;
             title := PORT |};
          {| loading := loading;
             onFilterFieldChange := setUpdatedFieldValues_of;
             fieldName := "monitor.type";
             id := "scheme";
             disabled := Some (length (schemes overviewFilters) =? 0)%nat;
             items := schemes overviewFilters;
             selectedItems := selectedSchemes selected;
             title := SCHEME |};
          {| loading := loading;
             onFilterFieldChange := setUpdatedFieldValues_of;
             fieldName := "tags";
             id := "tags";
             disabled := Some (length (tags overviewFilters) =? 0)%nat;
             items := tags overviewFilters;
             selectedItems := selectedTags selected;
             title := TAGS |} ]
      else []).

(** What the component returns: the children of the container, one
    [FilterPopover] per entry, each with its [key] and its props. *)
Definition FilterGroupComponent (overviewFilters : OverviewFilters) (loading : bool)
    (selected : SelectedFilters) (isMonitorPage : bool)
  : list (string * FilterPopoverProps) :=
  map (fun item => (id item, item))
    (filterPopoverProps overviewFilters loading selected isMonitorPage).

End Component.

End FilterGroup.

(** * Properties of the pre-routing interceptor adapter *)

Section OnPreRoutingProperties.

Import OnPreRouting.
Import preRoutingResult.

(** ** Type guards *)

Lemma isNext_not_response (v : JsValue) :
  isNext v = true -> instanceof_KibanaResponse v = false.
Proof. destruct v; unfold isNext; simpl; congruence. Qed.

Lemma guards_exclusive (v : JsValue) :
  isNext v = true -> isRewriteUrl v = false.
Proof.
  unfold isNext, isRewriteUrl.
  destruct (truthy v); simpl; [|discriminate].
  destruct (get_type v) as [t|]; simpl; [|discriminate].
  intros Hn. apply String.eqb_eq in Hn. subst t. reflexivity.
Qed.

(** C8: the two factories of the toolkit produce the two result variants,
    and the type guards tell them apart: [isNext] holds of [next()] and
    [isRewriteUrl] does not; [isRewriteUrl] holds of [rewriteUrl(u)], whose
    [url] is [u], and [isNext] does not. No value passes both guards. *)
Theorem toolkit_results_discriminated :
  (isNext (tk_next toolkit tt) = true /\
   isRewriteUrl (tk_next toolkit tt) = false) /\
  (forall u : string,
     isRewriteUrl (tk_rewriteUrl toolkit u) = true /\
     get_url (tk_rewriteUrl toolkit u) = Some u /\
     isNext (tk_rewriteUrl toolkit u) = false) /\
  (forall v : JsValue, ~ (isNext v = true /\ isRewriteUrl v = true)).
Proof.
  split; [split; reflexivity|].
  split; [intros u; repeat split; reflexivity|].
  intros v [Hn Hr]. rewrite (guards_exclusive v Hn) in Hr. discriminate.
Qed.

(** ** The string rebuild *)

Lemma append_cons (c : Ascii.ascii) (s t : string) :
  String c s +:+ t = String c (s +:+ t).
Proof. reflexivity. Qed.

Lemma append_nil_r (s : string) : s +:+ "" = s.
Proof.
  induction s as [|c s IH]; [reflexivity|].
  rewrite append_cons, IH. reflexivity.
Qed.

Lemma append_assoc (s1 s2 s3 : string) : (s1 +:+ s2) +:+ s3 = s1 +:+ (s2 +:+ s3).
Proof.
  induction s1 as [|c s1 IH]; [reflexivity|].
  rewrite !append_cons, IH. reflexivity.
Qed.

Lemma substring_none (s : string) (n : nat) : String.substring n 0 s = "".
Proof. revert n. induction s as [|c s IH]; intros [|n]; simpl; auto. Qed.

Lemma substring_whole (s : string) : String.substring 0 (String.length s) s = s.
Proof. induction s as [|c s IH]; [reflexivity | simpl; f_equal; exact IH]. Qed.

(** The rest of the string from [i] on starts with the character at [i]. *)
Lemma substring_char_at (s : string) (i : nat) :
  (i < String.length s)%nat ->
  String.substring i (String.length s - i) s =
  char_at s i +:+ String.substring (S i) (String.length s - S i) s.
Proof.
  revert i. induction s as [|c s IH]; intros i Hi; simpl in Hi; [lia|].
  destruct i as [|i].
  - unfold char_at. simpl. rewrite append_cons, Nat.sub_0_r. reflexivity.
  - replace (String.length (String c s) - S i)%nat with (String.length s - i)%nat
      by (simpl; lia).
    replace (String.length (String c s) - S (S i))%nat with (String.length s - S i)%nat
      by (simpl; lia).
    change (char_at (String c s) (S i)) with (char_at s i).
    change (String.substring (S i) (String.length s - i) (String c s))
      with (String.substring i (String.length s - i) s).
    change (String.substring (S (S i)) (String.length s - S i) (String c s))
      with (String.substring (S i) (String.length s - S i) s).
    apply IH. lia.
Qed.

(** Loop invariant: what is still to be appended is the rest of [url]. *)
Lemma rebuild_loop_spec (url : string) (i : nat) (urlCopy : string) :
  rebuild_loop url i urlCopy =
  urlCopy +:+ String.substring i (String.length url - i) url.
Proof.
  funelim (rebuild_loop url i urlCopy).
  - match goal with IH : rebuild_loop _ _ _ = _ +:+ _ |- _ => rewrite IH end.
    rewrite append_assoc, <- substring_char_at by assumption. reflexivity.
  - match goal with Hge : ¬ (_ < String.length ?u)%nat |- _ =>
      replace (String.length u - i)%nat with 0%nat by lia
    end.
    now rewrite substring_none, append_nil_r.
Qed.

Lemma copy_url_id (u : string) : copy_url u = u.
Proof.
  unfold copy_url. rewrite rebuild_loop_spec, Nat.sub_0_r. apply substring_whole.
Qed.

Example copy_url_new_path : copy_url "/new-path" = "/new-path".
Proof. reflexivity. Qed.

(** ** One run of the lifecycle function, case by case *)

Ltac run_adapter :=
  unfold adoptToHapiOnRequest, interceptPreRoutingRequest, rewrite_branch,
    request_setUrl, log_error, await, try_catch, bind, gets, modify, ret, throw,
    with_request.

(** The handler throws or rejects: one log record, internal error. *)
Lemma intercept_throw setUrl fn w e :
  settle (fn (KibanaRequest_from (request w)) lifecycleResponseFactory toolkit) = Throw e ->
  interceptPreRoutingRequest setUrl fn w =
  (Normal InternalServerError, {| request := request w; logged := logged w ++ [e] |}).
Proof. intros H. run_adapter. rewrite H. reflexivity. Qed.

(** The handler's result passes no test: the same, with the error made on
    the spot. *)
Lemma intercept_unexpected setUrl fn w v :
  settle (fn (KibanaRequest_from (request w)) lifecycleResponseFactory toolkit) = Normal v ->
  instanceof_KibanaResponse v = false ->
  isNext v = false ->
  isRewriteUrl v = false ->
  interceptPreRoutingRequest setUrl fn w =
  (Normal InternalServerError,
   {| request := request w; logged := logged w ++ [unexpected_result v] |}).
Proof.
  intros H Hi Hn Hr. run_adapter. rewrite H.
  destruct v; try discriminate Hi; rewrite Hn, Hr; reflexivity.
Qed.

(** The handler's result passes [isNext]: proceed, nothing touched. *)
Lemma intercept_next setUrl fn w v :
  settle (fn (KibanaRequest_from (request w)) lifecycleResponseFactory toolkit) = Normal v ->
  isNext v = true ->
  interceptPreRoutingRequest setUrl fn w = (Normal Continue, w).
Proof.
  intros H Hnext. run_adapter. rewrite H.
  destruct v; try discriminate Hnext; rewrite Hnext; reflexivity.
Qed.

(** The handler's result is a rewrite to [u]: the original is recorded,
    then the setter is called with [u], and what follows depends on it. *)
Lemma intercept_rewrite setUrl fn w u :
  settle (fn (KibanaRequest_from (request w)) lifecycleResponseFactory toolkit)
    = Normal (rewriteUrl u) ->
  interceptPreRoutingRequest setUrl fn w =
  let recorded :=
    set_rewrittenUrl
      (Some (nullish_coalesce (rewrittenUrl (app (request w))) (url (request w))))
      (request w) in
  match setUrl u recorded with
  | (Normal _, r') =>
      (Normal Continue, {| request := set_raw_req_url u r'; logged := logged w |})
  | (Throw e, r') =>
      (Normal InternalServerError, {| request := r'; logged := logged w ++ [e] |})
  end.
Proof.
  intros H. run_adapter. rewrite H. cbn. rewrite copy_url_id.
  destruct (setUrl u _) as [[[]|e] r']; reflexivity.
Qed.

(** C7: the rebuild loop returns its input, so a rewrite to [u] calls the
    URL-setter with [u] itself and, when the setter returns, assigns [u] to
    the raw URL field. *)
Theorem rebuild_preserves_url :
  forall u : string,
    copy_url u = u /\
    forall (setUrl : URLSetter) (w : World),
      rewrite_branch setUrl (rewriteUrl u) w =
      let recorded :=
        set_rewrittenUrl
          (Some (nullish_coalesce (rewrittenUrl (app (request w))) (url (request w))))
          (request w) in
      match setUrl u recorded with
      | (Normal _, r') =>
          (Normal Continue, {| request := set_raw_req_url u r'; logged := logged w |})
      | (Throw e, r') => (Throw e, {| request := r'; logged := logged w |})
      end.
Proof.
  intros u. split; [apply copy_url_id|].
  intros setUrl w. run_adapter. cbn. rewrite copy_url_id.
  destruct (setUrl u _) as [[[]|e] r']; reflexivity.
Qed.

(** C2: when the handler throws, or returns a promise that rejects, with
    [e], the lifecycle function returns normally with the internal-error
    response, the logger has received [e] and nothing else, and the request
    is as it was. *)
Theorem handler_failure_logged_once
    (setUrl : URLSetter) (fn : OnPreRoutingHandler) (w : World) (e : Thrown JsValue)
    (Hfn : fn (KibanaRequest_from (request w)) lifecycleResponseFactory toolkit = Throws e
        \/ fn (KibanaRequest_from (request w)) lifecycleResponseFactory toolkit = Rejects e) :
  adoptToHapiOnRequest setUrl fn w =
  (Normal HapiResponseAdapter.toInternalError,
   {| request := request w; logged := logged w ++ [e] |}).
Proof.
  apply intercept_throw. destruct Hfn as [-> | ->]; reflexivity.
Qed.

Example synchronous_throw_logged :
  adoptToHapiOnRequest Samples.plain_setUrl Samples.throwing Samples.old_path =
  (Normal InternalServerError,
   {| request := request Samples.old_path; logged := [ThrownError Samples.boom] |}).
Proof. reflexivity. Qed.

Lemma handler_failure_logged_once_witness :
  adoptToHapiOnRequest Samples.strict_setUrl Samples.rejecting Samples.old_path =
  (Normal InternalServerError,
   {| request := request Samples.old_path; logged := [ThrownError Samples.boom] |}).
Proof.
  apply (handler_failure_logged_once Samples.strict_setUrl Samples.rejecting
           Samples.old_path (ThrownError Samples.boom)).
  right. reflexivity.
Defined.

(** C3: a result that is not a [KibanaResponse] and passes neither type
    guard is handled as a throw is: the lifecycle function returns the
    internal-error response, the logger receives one record (the error made
    for the unexpected result), the request is as it was: the outcome of a
    handler that throws that very error. *)
Theorem unrecognized_result_as_throw
    (setUrl : URLSetter) (fn : OnPreRoutingHandler) (w : World) (v : JsValue)
    (Hfn : settle (fn (KibanaRequest_from (request w)) lifecycleResponseFactory toolkit)
           = Normal v)
    (Hresponse : instanceof_KibanaResponse v = false)
    (Hnext : isNext v = false)
    (Hrewrite : isRewriteUrl v = false) :
  adoptToHapiOnRequest setUrl fn w =
    (Normal HapiResponseAdapter.toInternalError,
     {| request := request w; logged := logged w ++ [unexpected_result v] |}) /\
  adoptToHapiOnRequest setUrl fn w =
    adoptToHapiOnRequest setUrl (fun _ _ _ => Throws (unexpected_result v)) w /\
  forall (fn' : OnPreRoutingHandler) (e : Thrown JsValue),
    settle (fn' (KibanaRequest_from (request w)) lifecycleResponseFactory toolkit) = Throw e ->
    fst (adoptToHapiOnRequest setUrl fn w) = fst (adoptToHapiOnRequest setUrl fn' w) /\
    request (snd (adoptToHapiOnRequest setUrl fn w))
      = request (snd (adoptToHapiOnRequest setUrl fn' w)) /\
    length (logged (snd (adoptToHapiOnRequest setUrl fn w)))
      = length (logged (snd (adoptToHapiOnRequest setUrl fn' w))).
Proof.
  unfold adoptToHapiOnRequest.
  rewrite (intercept_unexpected setUrl fn w v Hfn Hresponse Hnext Hrewrite).
  split; [reflexivity|]. split.
  - symmetry. apply intercept_throw. reflexivity.
  - intros fn' e Hfn'. rewrite (intercept_throw setUrl fn' w e Hfn'). simpl.
    rewrite !length_app. auto.
Qed.

Lemma unrecognized_result_as_throw_witness :
  adoptToHapiOnRequest Samples.plain_setUrl
    (Samples.returning (JsObject (Some "redirect") (Some "/new-path"))) Samples.old_path =
  adoptToHapiOnRequest Samples.plain_setUrl
    (fun _ _ _ => Throws (unexpected_result (JsObject (Some "redirect") (Some "/new-path"))))
    Samples.old_path.
Proof.
  apply (unrecognized_result_as_throw Samples.plain_setUrl
           (Samples.returning (JsObject (Some "redirect") (Some "/new-path")))
           Samples.old_path (JsObject (Some "redirect") (Some "/new-path")));
    reflexivity.
Defined.

(** C4: when the handler's result is the continue-result, the lifecycle
    function returns the toolkit's [continue] and changes nothing: the
    request's URL, its raw URL, the recorded original URL and the log are
    as before. *)
Theorem continue_leaves_request_alone
    (setUrl : URLSetter) (fn : OnPreRoutingHandler) (w : World) (v : JsValue)
    (Hfn : settle (fn (KibanaRequest_from (request w)) lifecycleResponseFactory toolkit)
           = Normal v)
    (Hnext : isNext v = true) :
  adoptToHapiOnRequest setUrl fn w = (Normal Continue, w).
Proof.
  run_adapter. rewrite Hfn.
  assert (Hresponse : instanceof_KibanaResponse v = false)
    by (apply isNext_not_response; exact Hnext).
  destruct v; try discriminate Hresponse; rewrite Hnext; reflexivity.
Qed.

Lemma continue_leaves_request_alone_witness :
  adoptToHapiOnRequest Samples.strict_setUrl Samples.pass_on Samples.old_path
  = (Normal Continue, Samples.old_path).
Proof.
  apply (continue_leaves_request_alone Samples.strict_setUrl Samples.pass_on
           Samples.old_path (tk_next toolkit tt)); reflexivity.
Defined.

(** C5: when the handler's result is an explicit response, the lifecycle
    function returns what the response adapter's [handle] makes of that
    response, a native response with the same status and body; request and
    log are untouched. *)
Theorem explicit_response_converted
    (setUrl : URLSetter) (fn : OnPreRoutingHandler) (w : World) (response : KibanaResponse)
    (Hfn : settle (fn (KibanaRequest_from (request w)) lifecycleResponseFactory toolkit)
           = Normal (JsKibanaResponse response)) :
  adoptToHapiOnRequest setUrl fn w = (Normal (HapiResponseAdapter.handle response), w) /\
  HapiResponseAdapter.handle response
    = NativeResponse (status response) (payload response).
Proof.
  split; [|reflexivity]. run_adapter. rewrite Hfn. reflexivity.
Qed.

Lemma explicit_response_converted_witness :
  adoptToHapiOnRequest Samples.plain_setUrl (Samples.respond 403 "Forbidden") Samples.old_path
  = (Normal (NativeResponse 403 (Some "Forbidden")), Samples.old_path).
Proof.
  apply (explicit_response_converted Samples.plain_setUrl (Samples.respond 403 "Forbidden")
           Samples.old_path {| status := 403; payload := Some "Forbidden" |}).
  reflexivity.
Defined.

(** ** Rewrites *)

Lemma adopt_rewrite_sets setUrl fn u w :
  settle (fn (KibanaRequest_from (request w)) lifecycleResponseFactory toolkit)
    = Normal (rewriteUrl u) ->
  setUrl_sets setUrl u ->
  adoptToHapiOnRequest setUrl fn w =
  (Normal Continue,
   {| request :=
        {| url := u; raw_req_url := u;
           app := {| rewrittenUrl :=
                       Some (nullish_coalesce (rewrittenUrl (app (request w)))
                               (url (request w))) |} |};
      logged := logged w |}).
Proof.
  intros Hfn Hset. unfold adoptToHapiOnRequest.
  rewrite (intercept_rewrite setUrl fn w u Hfn). cbv zeta.
  rewrite Hset. reflexivity.
Qed.

(** Earlier rewrites of the same request let the server proceed, log
    nothing, and do not change which URL counts as the original. *)
Lemma onRequest_rewrites setUrl steps :
  forall w,
    rewrites setUrl steps w ->
    exists w1,
      onRequest setUrl (map fst steps) w = (Normal Continue, w1) /\
      logged w1 = logged w /\
      nullish_coalesce (rewrittenUrl (app (request w1))) (url (request w1))
        = nullish_coalesce (rewrittenUrl (app (request w))) (url (request w)).
Proof.
  induction steps as [|[fn u] steps IH]; intros w Hsteps.
  - exists w. repeat split; reflexivity.
  - destruct Hsteps as (Hfn & Hu & Hrest). cbn [fst snd] in Hfn, Hu, Hrest.
    rewrite (adopt_rewrite_sets setUrl fn u w Hfn Hu) in Hrest. cbn [snd] in Hrest.
    destruct (IH _ Hrest) as (w1 & Hrun & Hlog & Horig).
    exists w1. split; [|split; assumption].
    cbn [map fst onRequest]. unfold bind at 1.
    rewrite (adopt_rewrite_sets setUrl fn u w Hfn Hu). exact Hrun.
Qed.

(** C1 as stated fails: the handler's result is a rewrite to a URL the
    setter throws on, and after the run the URL of the request is still
    the old one. *)
Lemma rewrite_without_effect :
  settle (Samples.rewrite_to "new-path" (KibanaRequest_from (request Samples.old_path))
            lifecycleResponseFactory toolkit)
    = Normal (rewriteUrl "new-path") /\
  ~ rewrite_takes_effect Samples.strict_setUrl (Samples.rewrite_to "new-path")
      "new-path" Samples.old_path.
Proof.
  split; [reflexivity|].
  unfold rewrite_takes_effect. vm_compute. intros [Hurl _]. discriminate Hurl.
Qed.

(** C1, amended: when the handler's awaited result is a rewrite to [u] and
    the URL-setter takes [u] (called with it, it returns having set the
    URL of the request to [u] and nothing else), the lifecycle function
    tells the server to proceed with the request's URL and raw URL equal
    to [u]. The recorded original URL is then the one recorded before, if
    any, and otherwise the URL the request had: so after any number of
    earlier rewrites of the same request, each by a handler shown the
    request as it then was, it is still the URL from before the first of
    them. *)
Theorem rewrite_sets_url_keeps_first_original
    (setUrl : URLSetter) (earlier : list (OnPreRoutingHandler * string))
    (fn : OnPreRoutingHandler) (u : string) (w : World)
    (Hearlier : rewrites setUrl earlier w)
    (Hfn : settle (fn (KibanaRequest_from
                         (request (snd (onRequest setUrl (map fst earlier) w))))
                     lifecycleResponseFactory toolkit)
           = Normal (rewriteUrl u))
    (Hset : setUrl_sets setUrl u) :
  onRequest setUrl (map fst earlier) w
    = (Normal Continue, snd (onRequest setUrl (map fst earlier) w)) /\
  adoptToHapiOnRequest setUrl fn (snd (onRequest setUrl (map fst earlier) w)) =
  (Normal Continue,
   {| request :=
        {| url := u; raw_req_url := u;
           app := {| rewrittenUrl :=
                       Some (nullish_coalesce (rewrittenUrl (app (request w)))
                               (url (request w))) |} |};
      logged := logged w |}).
Proof.
  destruct (onRequest_rewrites setUrl earlier w Hearlier) as (w1 & Hrun & Hlog & Horig).
  rewrite Hrun in *. cbn [snd] in *. split; [reflexivity|].
  rewrite (adopt_rewrite_sets setUrl fn u w1 Hfn Hset), Hlog, Horig. reflexivity.
Qed.

Lemma rewrite_sets_url_keeps_first_original_witness :
  onRequest Samples.plain_setUrl [Samples.rewrite_to "/new-path"] Samples.old_path
    = (Normal Continue,
       snd (onRequest Samples.plain_setUrl [Samples.rewrite_to "/new-path"]
              Samples.old_path)) /\
  adoptToHapiOnRequest Samples.plain_setUrl (Samples.append_segment "/final")
    (snd (onRequest Samples.plain_setUrl [Samples.rewrite_to "/new-path"] Samples.old_path)) =
  (Normal Continue,
   {| request :=
        {| url := "/new-path/final"; raw_req_url := "/new-path/final";
           app := {| rewrittenUrl := Some "/old-path" |} |};
      logged := [] |}).
Proof.
  apply (rewrite_sets_url_keeps_first_original Samples.plain_setUrl
           [(Samples.rewrite_to "/new-path", "/new-path")]
           (Samples.append_segment "/final") "/new-path/final" Samples.old_path).
  - split; [reflexivity|]. split; [intros r; reflexivity | exact I].
  - reflexivity.
  - intros r. reflexivity.
Defined.

(** C6 as stated fails: the handler asks for a rewrite to a URL the setter
    throws on; the server gets the internal error, and the request has the
    original URL recorded although no URL was rewritten. *)
Lemma rewrite_not_all_or_nothing :
  ~ all_or_nothing Samples.strict_setUrl (Samples.rewrite_to "new-path")
      "new-path" Samples.old_path.
Proof.
  unfold all_or_nothing. vm_compute.
  intros [[Hout _] | [_ Hreq]]; discriminate.
Qed.

(** A rewrite-result without its [url] does the same with any setter. *)
Example malformed_rewrite_records_original :
  interceptPreRoutingRequest Samples.plain_setUrl
    (Samples.returning (JsObject (Some "rewriteUrl") None)) Samples.old_path =
  (Normal InternalServerError,
   {| request := {| url := "/old-path"; raw_req_url := "/old-path";
                    app := {| rewrittenUrl := Some "/old-path" |} |};
      logged := [ThrownError
                   {| name := "TypeError";
                      message := "Cannot read property 'length' of undefined" |}] |}).
Proof. reflexivity. Qed.

Lemma isRewriteUrl_shape (v : JsValue) :
  isRewriteUrl v = true ->
  exists url_, v = JsObject (Some ResultType.rewriteUrl) url_.
Proof.
  destruct v as [ | | b | n | s | [t|] url_ | r]; unfold isRewriteUrl; simpl;
    rewrite ?andb_false_r; try discriminate.
  intros H. apply String.eqb_eq in H. subst t. eauto.
Qed.

(** C6, amended: with a setter that either sets the URL or throws without
    touching the request, a rewrite to [u] either completes (URL and raw
    URL are [u], the original is recorded) and the server is told to
    proceed, or the server gets the internal error and the request is as it
    was except that the original URL has been recorded. Whatever the
    handler does, the proceed signal comes with an untouched request or with
    a complete rewrite. *)
Theorem rewrite_fails_closed
    (setUrl : URLSetter) (fn : OnPreRoutingHandler) (u : string) (w : World)
    (Hatomic : setUrl_atomic setUrl)
    (Hfn : settle (fn (KibanaRequest_from (request w)) lifecycleResponseFactory toolkit)
           = Normal (rewriteUrl u)) :
  fails_closed setUrl fn u w /\
  forall fn' : OnPreRoutingHandler,
    fst (interceptPreRoutingRequest setUrl fn' w) = Normal Continue ->
    request (snd (interceptPreRoutingRequest setUrl fn' w)) = request w \/
    exists u', rewrite_applied u' (request w)
                 (request (snd (interceptPreRoutingRequest setUrl fn' w))).
Proof.
  split.
  - unfold fails_closed. rewrite (intercept_rewrite setUrl fn w u Hfn). cbv zeta.
    destruct (Hatomic u
      (set_rewrittenUrl
         (Some (nullish_coalesce (rewrittenUrl (app (request w))) (url (request w))))
         (request w))) as [-> | [e ->]].
    + left. split; [reflexivity|]. repeat split.
    + right. split; reflexivity.
  - intros fn'.
    destruct (settle (fn' (KibanaRequest_from (request w)) lifecycleResponseFactory toolkit))
      as [v|e] eqn:Hfn'.
    2:{ rewrite (intercept_throw setUrl fn' w e Hfn'). discriminate. }
    destruct (instanceof_KibanaResponse v) eqn:Hresponse.
    { destruct v; try discriminate Hresponse.
      run_adapter. rewrite Hfn'. discriminate. }
    destruct (isNext v) eqn:Hnext.
    { rewrite (intercept_next setUrl fn' w v Hfn' Hnext). left. reflexivity. }
    destruct (isRewriteUrl v) eqn:Hrewrite.
    2:{ rewrite (intercept_unexpected setUrl fn' w v Hfn' Hresponse Hnext Hrewrite).
        discriminate. }
    destruct (isRewriteUrl_shape v Hrewrite) as [[u'|] ->].
    + rewrite (intercept_rewrite setUrl fn' w u' Hfn'). cbv zeta.
      destruct (Hatomic u'
        (set_rewrittenUrl
           (Some (nullish_coalesce (rewrittenUrl (app (request w))) (url (request w))))
           (request w))) as [-> | [e ->]]; [|discriminate].
      intros _. right. exists u'. repeat split.
    + run_adapter. rewrite Hfn'. discriminate.
Qed.

Lemma rewrite_fails_closed_witness :
  fails_closed Samples.strict_setUrl (Samples.rewrite_to "new-path") "new-path"
    Samples.old_path.
Proof.
  apply (rewrite_fails_closed Samples.strict_setUrl (Samples.rewrite_to "new-path")
           "new-path" Samples.old_path).
  - intros u' r. unfold Samples.strict_setUrl.
    destruct (String.eqb _ _); [left; reflexivity | right; eexists; reflexivity].
  - reflexivity.
Defined.

(** ** Further properties of the adapter *)

(** With any setter at all, a run ends in one of five ways. *)
Lemma intercept_cases setUrl fn w :
  let recorded :=
    set_rewrittenUrl
      (Some (nullish_coalesce (rewrittenUrl (app (request w))) (url (request w))))
      (request w) in
  (exists response,
     interceptPreRoutingRequest setUrl fn w
     = (Normal (HapiResponseAdapter.handle response), w)) \/
  interceptPreRoutingRequest setUrl fn w = (Normal Continue, w) \/
  (exists e,
     interceptPreRoutingRequest setUrl fn w
     = (Normal InternalServerError,
        {| request := request w; logged := logged w ++ [e] |})) \/
  (exists e,
     interceptPreRoutingRequest setUrl fn w
     = (Normal InternalServerError,
        {| request := recorded; logged := logged w ++ [e] |})) \/
  (exists u,
     interceptPreRoutingRequest setUrl fn w =
     match setUrl u recorded with
     | (Normal _, r') =>
         (Normal Continue, {| request := set_raw_req_url u r'; logged := logged w |})
     | (Throw e, r') =>
         (Normal InternalServerError, {| request := r'; logged := logged w ++ [e] |})
     end).
Proof.
  intros recorded.
  destruct (settle (fn (KibanaRequest_from (request w)) lifecycleResponseFactory toolkit))
    as [v|e] eqn:Hfn.
  2:{ right. right. left. exists e. apply intercept_throw. exact Hfn. }
  destruct (instanceof_KibanaResponse v) eqn:Hresponse.
  { destruct v; try discriminate Hresponse.
    left. eexists. run_adapter. rewrite Hfn. reflexivity. }
  destruct (isNext v) eqn:Hnext.
  { right. left. apply (intercept_next setUrl fn w v Hfn Hnext). }
  destruct (isRewriteUrl v) eqn:Hrewrite.
  2:{ right. right. left. eexists.
      apply (intercept_unexpected setUrl fn w v Hfn Hresponse Hnext Hrewrite). }
  destruct (isRewriteUrl_shape v Hrewrite) as [[u|] ->].
  - do 4 right. exists u. apply (intercept_rewrite setUrl fn w u Hfn).
  - do 3 right. left. eexists. run_adapter. rewrite Hfn. reflexivity.
Qed.

(** X1: whatever the handler does and whatever the URL-setter does (also
    when it throws), the lifecycle function returns normally: with an
    explicit response's conversion or the proceed signal and the log as it
    was, or with the internal error and exactly one more log record. *)
Theorem lifecycle_function_never_throws
    (setUrl : URLSetter) (fn : OnPreRoutingHandler) (w : World) :
  exists (out : LifecycleReturnValue) (w' : World),
    adoptToHapiOnRequest setUrl fn w = (Normal out, w') /\
    ((out <> HapiResponseAdapter.toInternalError /\ logged w' = logged w) \/
     (out = HapiResponseAdapter.toInternalError /\
      exists e, logged w' = logged w ++ [e])).
Proof.
  unfold adoptToHapiOnRequest.
  destruct (intercept_cases setUrl fn w)
    as [[response ->] | [-> | [[e ->] | [[e ->] | [u ->]]]]].
  - do 2 eexists. split; [reflexivity|]. left. split; [discriminate | reflexivity].
  - do 2 eexists. split; [reflexivity|]. left. split; [discriminate | reflexivity].
  - do 2 eexists. split; [reflexivity|]. right. split; [reflexivity | eauto].
  - do 2 eexists. split; [reflexivity|]. right. split; [reflexivity | eauto].
  - destruct (setUrl u _) as [[[]|e] r'].
    + do 2 eexists. split; [reflexivity|]. left. split; [discriminate | reflexivity].
    + do 2 eexists. split; [reflexivity|]. right. split; [reflexivity | eauto].
Qed.

(** X2: the URL-setter is called for rewrite-results only. When the
    handler throws, or its result does not pass [isRewriteUrl], the run is
    the same with every setter and leaves the request as it was. *)
Theorem setter_called_for_rewrites_only
    (setUrl setUrl' : URLSetter) (fn : OnPreRoutingHandler) (w : World)
    (Hfn : forall v,
        settle (fn (KibanaRequest_from (request w)) lifecycleResponseFactory toolkit)
        = Normal v ->
        isRewriteUrl v = false) :
  interceptPreRoutingRequest setUrl fn w = interceptPreRoutingRequest setUrl' fn w /\
  request (snd (interceptPreRoutingRequest setUrl fn w)) = request w.
Proof.
  destruct (settle (fn (KibanaRequest_from (request w)) lifecycleResponseFactory toolkit))
    as [v|e] eqn:Hsettle.
  2:{ rewrite !(intercept_throw _ fn w e Hsettle). split; reflexivity. }
  specialize (Hfn v eq_refl).
  destruct (instanceof_KibanaResponse v) eqn:Hresponse.
  { destruct v; try discriminate Hresponse.
    run_adapter. rewrite Hsettle. split; reflexivity. }
  destruct (isNext v) eqn:Hnext.
  - rewrite !(intercept_next _ fn w v Hsettle Hnext). split; reflexivity.
  - rewrite !(intercept_unexpected _ fn w v Hsettle Hresponse Hnext Hfn).
    split; reflexivity.
Qed.

Lemma setter_called_for_rewrites_only_witness :
  interceptPreRoutingRequest Samples.strict_setUrl Samples.pass_on Samples.old_path
  = interceptPreRoutingRequest Samples.plain_setUrl Samples.pass_on Samples.old_path /\
  request (snd (interceptPreRoutingRequest Samples.strict_setUrl Samples.pass_on
                  Samples.old_path))
  = request Samples.old_path.
Proof.
  apply (setter_called_for_rewrites_only Samples.strict_setUrl Samples.plain_setUrl
           Samples.pass_on Samples.old_path).
  intros v [= <-]. reflexivity.
Defined.

(** X3: a handler that returns nothing useful ([undefined], [null],
    [false], [0] or the empty string) is caught by the [result &&] of the
    guards: the record logged is the 'Unexpected result' error naming the
    value, the server gets the internal error, the request is untouched. *)
Theorem falsy_result_is_unexpected
    (setUrl : URLSetter) (fn : OnPreRoutingHandler) (w : World) (v : JsValue)
    (Hfn : settle (fn (KibanaRequest_from (request w)) lifecycleResponseFactory toolkit)
           = Normal v)
    (Hfalsy : truthy v = false) :
  adoptToHapiOnRequest setUrl fn w =
  (Normal HapiResponseAdapter.toInternalError,
   {| request := request w;
      logged := logged w ++
        [ThrownError
           {| name := "Error";
              message :=
                "Unexpected result from OnPreRouting. Expected OnPreRoutingResult or KibanaResponse, but given: "
                +:+ to_string v +:+ "." |}] |}).
Proof.
  apply (intercept_unexpected setUrl fn w v Hfn).
  - destruct v; try reflexivity; discriminate Hfalsy.
  - unfold isNext. rewrite Hfalsy. reflexivity.
  - unfold isRewriteUrl. rewrite Hfalsy. reflexivity.
Qed.

Lemma falsy_result_is_unexpected_witness :
  adoptToHapiOnRequest Samples.plain_setUrl (Samples.returning JsUndefined) Samples.old_path =
  (Normal InternalServerError,
   {| request := request Samples.old_path;
      logged :=
        [ThrownError
           {| name := "Error";
              message :=
                "Unexpected result from OnPreRouting. Expected OnPreRoutingResult or KibanaResponse, but given: undefined." |}] |}).
Proof.
  apply (falsy_result_is_unexpected Samples.plain_setUrl (Samples.returning JsUndefined)
           Samples.old_path JsUndefined); reflexivity.
Defined.

(** With a setter that sets or throws cleanly, the request after a run is
    the old one, the old one with the original recorded, or the rewritten
    one. *)
Lemma intercept_request_atomic setUrl fn w :
  setUrl_atomic setUrl ->
  let recorded :=
    set_rewrittenUrl
      (Some (nullish_coalesce (rewrittenUrl (app (request w))) (url (request w))))
      (request w) in
  request (snd (interceptPreRoutingRequest setUrl fn w)) = request w \/
  request (snd (interceptPreRoutingRequest setUrl fn w)) = recorded \/
  exists u,
    request (snd (interceptPreRoutingRequest setUrl fn w))
    = set_raw_req_url u (set_url u recorded).
Proof.
  intros Hatomic recorded.
  destruct (intercept_cases setUrl fn w)
    as [[response ->] | [-> | [[e ->] | [[e ->] | [u ->]]]]]; auto.
  subst recorded.
  destruct (Hatomic u
    (set_rewrittenUrl
       (Some (nullish_coalesce (rewrittenUrl (app (request w))) (url (request w))))
       (request w))) as [-> | [e ->]]; eauto.
Qed.

(** X5: the recorded original URL is written once. With a setter that
    sets or throws cleanly, once an original URL is recorded no run of the
    lifecycle function changes it, whatever the handlers of the request
    return or throw. *)
Theorem recorded_original_is_final
    (setUrl : URLSetter) (fns : list OnPreRoutingHandler) (w : World) (original : string)
    (Hatomic : setUrl_atomic setUrl)
    (Hrecorded : rewrittenUrl (app (request w)) = Some original) :
  rewrittenUrl (app (request (snd (onRequest setUrl fns w)))) = Some original.
Proof.
  revert w Hrecorded. induction fns as [|fn fns IH]; intros w Hrecorded; [exact Hrecorded|].
  cbn [onRequest]. unfold bind, adoptToHapiOnRequest.
  assert (Hstep :
    rewrittenUrl (app (request (snd (interceptPreRoutingRequest setUrl fn w))))
    = Some original).
  { destruct (intercept_request_atomic setUrl fn w Hatomic) as [-> | [-> | [u ->]]];
      [exact Hrecorded | |]; simpl; rewrite Hrecorded; reflexivity. }
  destruct (interceptPreRoutingRequest setUrl fn w) as [[out|e] w1]; [|exact Hstep].
  destruct out; [apply IH; exact Hstep | exact Hstep..].
Qed.

Lemma recorded_original_is_final_witness :
  rewrittenUrl (app (request (snd (onRequest Samples.strict_setUrl
    [Samples.rewrite_to "/new-path"; Samples.rewrite_to "no-slash"; Samples.throwing]
    {| request := {| url := "/first"; raw_req_url := "/first";
                     app := {| rewrittenUrl := Some "/old-path" |} |};
       logged := [] |}))))
  = Some "/old-path".
Proof.
  apply (recorded_original_is_final Samples.strict_setUrl
           [Samples.rewrite_to "/new-path"; Samples.rewrite_to "no-slash"; Samples.throwing]
           _ "/old-path").
  - intros u' r. unfold Samples.strict_setUrl.
    destruct (String.eqb _ _); [left; reflexivity | right; eexists; reflexivity].
  - reflexivity.
Defined.

(** X6: a rewrite is idempotent. When the setter takes [u], running the
    lifecycle function a second time for a handler that rewrites to [u]
    changes neither the answer nor the request. *)
Theorem rewrite_twice_is_rewrite_once
    (setUrl : URLSetter) (fn : OnPreRoutingHandler) (u : string) (w : World)
    (Hfn : yields fn (rewriteUrl u))
    (Hset : setUrl_sets setUrl u) :
  adoptToHapiOnRequest setUrl fn (snd (adoptToHapiOnRequest setUrl fn w))
  = adoptToHapiOnRequest setUrl fn w.
Proof.
  rewrite (adopt_rewrite_sets setUrl fn u w (Hfn _) Hset). cbn [snd].
  rewrite (adopt_rewrite_sets setUrl fn u _ (Hfn _) Hset). reflexivity.
Qed.

Lemma rewrite_twice_is_rewrite_once_witness :
  adoptToHapiOnRequest Samples.plain_setUrl (Samples.rewrite_to "/new-path")
    (snd (adoptToHapiOnRequest Samples.plain_setUrl (Samples.rewrite_to "/new-path")
            Samples.old_path))
  = adoptToHapiOnRequest Samples.plain_setUrl (Samples.rewrite_to "/new-path")
      Samples.old_path.
Proof.
  apply (rewrite_twice_is_rewrite_once Samples.plain_setUrl (Samples.rewrite_to "/new-path")
           "/new-path" Samples.old_path).
  - intros kr. reflexivity.
  - intros r. reflexivity.
Defined.

End OnPreRoutingProperties.

(** * Properties of the task runner factory *)

Section TaskRunnerFactoryProperties.

Import TaskRunnerFactory.

Context {TaskRunnerContext UntypedNormalizedAlertType ConcreteTaskInstance : Type}.

(** [create] never writes to the instance. *)
Lemma create_keeps_state (alertType : UntypedNormalizedAlertType)
    (runContext : RunContext ConcreteTaskInstance)
    (this : TaskRunnerFactory TaskRunnerContext) :
  snd (create alertType runContext this) = this.
Proof.
  unfold create, bind, gets, throw, ret. destruct (isInitialized this); reflexivity.
Qed.

Lemma creates_keep_state
    (creates : list (UntypedNormalizedAlertType * RunContext ConcreteTaskInstance))
    (this : TaskRunnerFactory TaskRunnerContext) :
  calls (map (fun c => CallCreate (fst c) (snd c)) creates) this = this.
Proof.
  revert this. induction creates as [|[a rc] creates IH]; intros this; [reflexivity|].
  unfold calls in *. simpl. rewrite create_keeps_state. apply IH.
Qed.

(** Once initialized, the instance is beyond the reach of every call. *)
Lemma initialized_is_final (context : TaskRunnerContext)
    (cs : list (Call TaskRunnerContext UntypedNormalizedAlertType ConcreteTaskInstance)) :
  calls cs {| isInitialized := true; taskRunnerContext := Some context |}
  = {| isInitialized := true; taskRunnerContext := Some context |}.
Proof.
  induction cs as [|c cs IH]; [reflexivity|].
  unfold calls in *. destruct c; simpl; exact IH.
Qed.

(** C9: on a new factory, through any number of [create] calls, [create]
    throws 'TaskRunnerFactory not initialized' and the first [initialize]
    returns and records its context; from then on, through any calls
    whatever, the recorded context stays, [initialize] throws
    'TaskRunnerFactory already initialized' and changes nothing, and
    [create] returns the task runner made of its arguments and the
    recorded context. *)
Theorem initialize_at_most_once
    (creates : list (UntypedNormalizedAlertType * RunContext ConcreteTaskInstance))
    (context : TaskRunnerContext)
    (later : list (Call TaskRunnerContext UntypedNormalizedAlertType ConcreteTaskInstance))
    (context' : TaskRunnerContext) (alertType : UntypedNormalizedAlertType)
    (runContext : RunContext ConcreteTaskInstance) :
  let fresh :=
    calls (map (fun c => CallCreate (fst c) (snd c)) creates) new_TaskRunnerFactory in
  let ready := calls later (snd (initialize context fresh)) in
  create alertType runContext fresh
    = (Throw (not_initialized), fresh) /\
  initialize context fresh
    = (Normal tt, {| isInitialized := true; taskRunnerContext := Some context |}) /\
  isInitialized ready = true /\
  taskRunnerContext ready = Some context /\
  initialize context' ready = (Throw (already_initialized), ready) /\
  create alertType runContext ready
    = (Normal {| tr_alertType := alertType;
                 tr_taskInstance := taskInstance runContext;
                 tr_context := Some context |}, ready).
Proof.
  intros fresh ready. subst fresh ready.
  rewrite creates_keep_state. cbn [initialize new_TaskRunnerFactory snd].
  change (snd (initialize context new_TaskRunnerFactory))
    with (Build_TaskRunnerFactory true (Some context)).
  rewrite initialized_is_final.
  repeat split; reflexivity.
Qed.

(** From a new factory, every sequence of calls ends in the new state or
    in an initialized one that holds a context. *)
Lemma calls_reach
    (cs : list (Call TaskRunnerContext UntypedNormalizedAlertType ConcreteTaskInstance))
    (this : TaskRunnerFactory TaskRunnerContext) :
  (this = new_TaskRunnerFactory \/
   exists context, this = {| isInitialized := true; taskRunnerContext := Some context |}) ->
  calls cs this = new_TaskRunnerFactory \/
  exists context,
    calls cs this = {| isInitialized := true; taskRunnerContext := Some context |}.
Proof.
  revert this. induction cs as [|c cs IH]; intros this Hthis; [exact Hthis|].
  change (calls (c :: cs) this) with (calls cs (call c this)).
  apply IH. destruct Hthis as [-> | [context ->]]; destruct c; simpl; eauto.
Qed.

(** X7: whatever calls were made on a new factory, in whatever order, the
    flag and the stored context agree, so the non-null assertion in
    [create] is safe: [create] either throws 'TaskRunnerFactory not
    initialized' or returns a task runner with a context, the stored one,
    and leaves the factory as it is. *)
Theorem create_never_without_context
    (cs : list (Call TaskRunnerContext UntypedNormalizedAlertType ConcreteTaskInstance))
    (alertType : UntypedNormalizedAlertType)
    (runContext : RunContext ConcreteTaskInstance) :
  let this := calls cs new_TaskRunnerFactory in
  (isInitialized this = true <-> is_Some (taskRunnerContext this)) /\
  (create alertType runContext this = (Throw not_initialized, this) \/
   exists context : TaskRunnerContext,
     taskRunnerContext this = Some context /\
     create alertType runContext this
     = (Normal {| tr_alertType := alertType;
                  tr_taskInstance := taskInstance runContext;
                  tr_context := Some context |}, this)).
Proof.
  intros this. subst this.
  destruct (calls_reach cs new_TaskRunnerFactory (or_introl eq_refl)) as [-> | [context ->]].
  - split; [|left; reflexivity].
    simpl. split; [discriminate | intros [x Hx]; discriminate Hx].
  - split; [|right; exists context; split; reflexivity].
    simpl. split; eauto.
Qed.

End TaskRunnerFactoryProperties.

(** * Properties of [fetchFields] *)

Section FetchFieldsProperties.

Import FetchFields.

Context {Fields AbortSignal : Type}.
Variable http_get : nat -> string -> option AbortSignal -> Promise Fields.
Variable i18n_translate : string -> string -> string.

(** ** [Promise.all] *)

Lemma first_rejection_Some (promises : list (Promise Fields)) t e :
  first_rejection promises = Some (t, e) ->
  exists (index : nat) (p : Promise Fields),
    promises !! index = Some p /\ settlement p = RejectedWith e /\ settled_at p = t.
Proof.
  revert t e. induction promises as [|p rest IH]; intros t e; simpl; [discriminate|].
  destruct (settlement p) as [v|e0] eqn:Hp.
  - intros H. destruct (IH _ _ H) as (i & q & Hi & Hq). exists (S i), q. auto.
  - destruct (first_rejection rest) as [[t' e']|].
    + destruct (t' <? settled_at p)%nat; intros [= <- <-].
      * destruct (IH _ _ eq_refl) as (i & q & Hi & Hq). exists (S i), q. auto.
      * exists 0%nat, p. auto.
    + intros [= <- <-]. exists 0%nat, p. auto.
Qed.

Lemma first_rejection_None (promises : list (Promise Fields)) :
  first_rejection promises = None ->
  forall (index : nat) (p : Promise Fields),
    promises !! index = Some p ->
    exists v, settlement p = Fulfilled v /\ fulfilled_values promises !! index = Some v.
Proof.
  induction promises as [|q rest IH]; simpl; intros Hnone index p Hp; [discriminate|].
  unfold fulfilled_values. simpl.
  destruct (settlement q) as [v|e0] eqn:Hq.
  - destruct index as [|index]; simpl in Hp.
    + injection Hp as <-. exists v. auto.
    + apply (IH Hnone index p Hp).
  - destruct (first_rejection rest) as [[t' e']|]; [|discriminate].
    destruct (t' <? settled_at q)%nat; discriminate.
Qed.

(** ** The [reduce] that builds the result object *)

Lemma reduce_other (indexFields : list Fields) (patterns : list string)
    (index : nat) (acc : gmap string (option Fields)) (pattern : string) :
  pattern ∉ patterns ->
  reduce (fun (cumulatedFields : gmap string (option Fields)) currentPattern index =>
            <[currentPattern := indexFields !! index]> cumulatedFields)
    patterns index acc !! pattern = acc !! pattern.
Proof.
  revert index acc. induction patterns as [|x rest IH]; intros index acc Hnot; simpl;
    [reflexivity|].
  apply not_elem_of_cons in Hnot as [Hne Hrest].
  rewrite IH by assumption. apply lookup_insert_ne. congruence.
Qed.

Lemma reduce_member (indexFields : list Fields) (patterns : list string)
    (index : nat) (acc : gmap string (option Fields)) (pattern : string) :
  pattern ∈ patterns ->
  exists offset : nat,
    patterns !! offset = Some pattern /\
    reduce (fun (cumulatedFields : gmap string (option Fields)) currentPattern index =>
              <[currentPattern := indexFields !! index]> cumulatedFields)
      patterns index acc !! pattern = Some (indexFields !! (index + offset)%nat).
Proof.
  revert index acc. induction patterns as [|x rest IH]; intros index acc Hin.
  - apply elem_of_nil in Hin. contradiction.
  - simpl. destruct (decide (pattern ∈ rest)) as [Hrest|Hrest].
    + destruct (IH (S index) (<[x := indexFields !! index]> acc) Hrest)
        as (offset & Hlookup & Hvalue).
      exists (S offset). split; [exact Hlookup|].
      rewrite Hvalue. do 2 f_equal. lia.
    + apply elem_of_cons in Hin as [-> | Hin]; [|contradiction].
      exists 0%nat. split; [reflexivity|].
      rewrite reduce_other by assumption.
      rewrite lookup_insert_eq, Nat.add_0_r. reflexivity.
Qed.

(** C10 as stated fails: a request rejected with [undefined] makes the
    [catch] block throw on [error.name], and [fetchFields] rejects. *)
Lemma fetchFields_rejects_on_nullish_reason :
  ~ exists result toasts',
      fetchFields nat unit
        (fun _ _ _ => {| settled_at := 0; settlement := RejectedWith ReasonNullish |})
        (fun _ defaultMessage => defaultMessage)
        (NotAnArray "logs-*") None []
      = (Normal result, toasts').
Proof. intros (result & toasts' & H). vm_compute in H. discriminate H. Qed.

(** C10, amended: [fetchFields] resolves whenever the rejection it catches
    (the first among its requests) is not [null] or [undefined]. A single
    pattern is treated as the one-element array, an array is used as it
    is, and a missing argument as the empty array. When every request is
    fulfilled the result is an object whose keys are the patterns, each
    with the fields that a request for it resolved with, and no toast is
    shown. When a request is rejected the result is the empty array, and
    the danger toast for the error caught is shown unless that error is
    named AbortError. *)
Theorem fetchFields_never_rejects
    (indexPatterns : IndexPatterns) (signal : option AbortSignal) (toasts : list Toast)
    (Hcaught : forall t : nat,
        first_rejection
          (imap (fun index pattern => http_get index pattern signal)
             (to_patterns indexPatterns))
        <> Some (t, ReasonNullish)) :
  let patterns := to_patterns indexPatterns in
  let promises := imap (fun index pattern => http_get index pattern signal) patterns in
  (to_patterns Omitted = [] /\
   (forall array : list string, to_patterns (AnArray array) = array) /\
   (forall pattern : string, to_patterns (NotAnArray pattern) = [pattern])) /\
  (forall object : gmap string (option Fields), FieldsByPattern object <> EmptyArray) /\
  (exists result toasts',
     fetchFields Fields AbortSignal http_get i18n_translate indexPatterns signal toasts
     = (Normal result, toasts')) /\
  (first_rejection promises = None ->
   exists object : gmap string (option Fields),
     fetchFields Fields AbortSignal http_get i18n_translate indexPatterns signal toasts
     = (Normal (FieldsByPattern object), toasts) /\
     (forall pattern : string, pattern ∉ patterns -> object !! pattern = None) /\
     (forall pattern : string, pattern ∈ patterns ->
        exists (index : nat) (value : Fields),
          patterns !! index = Some pattern /\
          settlement (http_get index pattern signal) = Fulfilled value /\
          object !! pattern = Some (Some value))) /\
  (forall (t : nat) (error : JsError),
     first_rejection promises = Some (t, ReasonError error) ->
     (exists (index : nat) (pattern : string),
        patterns !! index = Some pattern /\
        settlement (http_get index pattern signal) = Rejected error) /\
     fetchFields Fields AbortSignal http_get i18n_translate indexPatterns signal toasts
     = (Normal EmptyArray,
        if String.eqb (name error) "AbortError" then toasts
        else toasts ++ [load_error_toast i18n_translate error])).
Proof.
  intros patterns promises. fold patterns in Hcaught. fold promises in Hcaught.
  assert (Hnone : first_rejection promises = None ->
    exists object : gmap string (option Fields),
      fetchFields Fields AbortSignal http_get i18n_translate indexPatterns signal toasts
      = (Normal (FieldsByPattern object), toasts) /\
      (forall pattern : string, pattern ∉ patterns -> object !! pattern = None) /\
      (forall pattern : string, pattern ∈ patterns ->
         exists (index : nat) (value : Fields),
           patterns !! index = Some pattern /\
           settlement (http_get index pattern signal) = Fulfilled value /\
           object !! pattern = Some (Some value))).
  { intros Hfirst.
    unfold fetchFields, try_catch, bind, await_all. fold patterns. fold promises.
    rewrite Hfirst. eexists. split; [reflexivity|]. split.
    - intros pattern Hnot. rewrite reduce_other by assumption. apply lookup_empty.
    - intros pattern Hin.
      destruct (reduce_member (fulfilled_values promises) patterns 0 ∅ pattern Hin)
        as (index & Hpat & Hvalue).
      assert (Hp : promises !! index = Some (http_get index pattern signal)).
      { subst promises. rewrite list_lookup_imap, Hpat. reflexivity. }
      destruct (first_rejection_None promises Hfirst index _ Hp)
        as (value & Hful & Hlookup).
      exists index, value. repeat split; [assumption..|].
      rewrite Hvalue. simpl. rewrite Hlookup. reflexivity. }
  assert (Hsome : forall (t : nat) (error : JsError),
    first_rejection promises = Some (t, ReasonError error) ->
    (exists (index : nat) (pattern : string),
       patterns !! index = Some pattern /\
       settlement (http_get index pattern signal) = Rejected error) /\
    fetchFields Fields AbortSignal http_get i18n_translate indexPatterns signal toasts
    = (Normal EmptyArray,
       if String.eqb (name error) "AbortError" then toasts
       else toasts ++ [load_error_toast i18n_translate error])).
  { intros t error Hfirst. split.
    - destruct (first_rejection_Some promises t _ Hfirst) as (index & p & Hp & Hrej & _).
      subst promises. rewrite list_lookup_imap in Hp.
      destruct (patterns !! index) as [pattern|] eqn:Hpat; [|discriminate].
      injection Hp as <-. eauto.
    - unfold fetchFields, try_catch, bind, await_all. fold patterns. fold promises.
      rewrite Hfirst. unfold throw, as_object, addDanger, modify, ret.
      destruct (String.eqb (name error) "AbortError"); reflexivity. }
  split; [repeat split; reflexivity|]. split; [discriminate|].
  split; [|split; assumption].
  destruct (first_rejection promises) as [[t [error|]]|] eqn:Hfirst.
  - destruct (Hsome t error eq_refl) as [_ ->]. eauto.
  - destruct (Hcaught t eq_refl).
  - destruct (Hnone eq_refl) as (object & -> & _). eauto.
Qed.

(** ** Further properties of [fetchFields] *)

(** Some request is rejected exactly when [Promise.all] is. *)
Lemma rejection_caught (promises : list (Promise Fields)) (index : nat)
    (p : Promise Fields) (e : Reason) :
  promises !! index = Some p -> settlement p = RejectedWith e ->
  exists t e', first_rejection promises = Some (t, e').
Proof.
  intros Hp Hrej. destruct (first_rejection promises) as [[t e']|] eqn:Hfirst; [eauto|].
  destruct (first_rejection_None promises Hfirst index p Hp) as (v & Hful & _).
  congruence.
Qed.

(** The property written for the last occurrence of a pattern stays. *)
Lemma reduce_last (indexFields : list Fields) (patterns : list string)
    (index : nat) (acc : gmap string (option Fields)) (pattern : string) (offset : nat) :
  patterns !! offset = Some pattern ->
  (forall later : nat, (offset < later)%nat -> patterns !! later <> Some pattern) ->
  reduce (fun (cumulatedFields : gmap string (option Fields)) currentPattern index =>
            <[currentPattern := indexFields !! index]> cumulatedFields)
    patterns index acc !! pattern = Some (indexFields !! (index + offset)%nat).
Proof.
  revert index acc offset.
  induction patterns as [|x rest IH]; intros index acc offset Hat Hlast; [discriminate|].
  destruct offset as [|offset]; simpl in *.
  - injection Hat as ->.
    rewrite reduce_other.
    + rewrite lookup_insert_eq, Nat.add_0_r. reflexivity.
    + intros Hin. apply list_elem_of_lookup in Hin as [j Hj].
      apply (Hlast (S j)); [lia | exact Hj].
  - rewrite (IH (S index) _ offset Hat).
    + do 2 f_equal. lia.
    + intros later Hlater. apply (Hlast (S later)). lia.
Qed.

Lemma reduce_dom (indexFields : list Fields) (patterns : list string)
    (index : nat) (acc : gmap string (option Fields)) :
  dom (reduce (fun (cumulatedFields : gmap string (option Fields)) currentPattern index =>
                 <[currentPattern := indexFields !! index]> cumulatedFields)
         patterns index acc)
  = list_to_set patterns ∪ dom acc.
Proof.
  revert index acc. induction patterns as [|x rest IH]; intros index acc; simpl.
  - rewrite (left_id_L ∅ (∪)). reflexivity.
  - rewrite IH, dom_insert_L, (assoc_L (∪)).
    rewrite (comm_L (∪) (list_to_set rest) {[x]}). reflexivity.
Qed.

(** X8: when every request is fulfilled, the keys of the object returned
    are the patterns, each once: a pattern listed several times gives one
    property, and no patterns give the empty object (not the empty
    array). *)
Theorem fetchFields_keys_are_patterns
    (indexPatterns : IndexPatterns) (signal : option AbortSignal) (toasts : list Toast)
    (Hfulfilled :
       first_rejection
         (imap (fun index pattern => http_get index pattern signal)
            (to_patterns indexPatterns)) = None) :
  exists object : gmap string (option Fields),
    fetchFields Fields AbortSignal http_get i18n_translate indexPatterns signal toasts
    = (Normal (FieldsByPattern object), toasts) /\
    dom object = list_to_set (to_patterns indexPatterns) /\
    size object = length (remove_dups (to_patterns indexPatterns)).
Proof.
  unfold fetchFields, try_catch, bind, await_all. rewrite Hfulfilled.
  eexists. split; [reflexivity|].
  assert (Hdom : forall l : list Fields,
    dom (reduce (fun (cumulatedFields : gmap string (option Fields)) currentPattern index =>
                   <[currentPattern := l !! index]> cumulatedFields)
           (to_patterns indexPatterns) 0%nat ∅)
    = (list_to_set (to_patterns indexPatterns) : gset string)).
  { intros l. rewrite reduce_dom, dom_empty_L, (right_id_L ∅ (∪)). reflexivity. }
  split; [apply Hdom|].
  rewrite <- size_dom, Hdom.
  rewrite <- (size_list_to_set (C := gset string) (remove_dups (to_patterns indexPatterns)))
    by apply NoDup_remove_dups.
  f_equal. apply set_eq. intros x.
  rewrite !elem_of_list_to_set, elem_of_remove_dups. reflexivity.
Qed.

(** X9: when a pattern is listed more than once and every request is
    fulfilled, the object holds, for that pattern, the fields of the
    request issued for its last occurrence. *)
Theorem fetchFields_last_duplicate_wins
    (indexPatterns : IndexPatterns) (signal : option AbortSignal) (toasts : list Toast)
    (index : nat) (pattern : string) (value : Fields)
    (Hfulfilled :
       first_rejection
         (imap (fun index pattern => http_get index pattern signal)
            (to_patterns indexPatterns)) = None)
    (Hat : to_patterns indexPatterns !! index = Some pattern)
    (Hlast : forall later : nat,
        (index < later)%nat -> to_patterns indexPatterns !! later <> Some pattern)
    (Hvalue : settlement (http_get index pattern signal) = Fulfilled value) :
  exists object : gmap string (option Fields),
    fetchFields Fields AbortSignal http_get i18n_translate indexPatterns signal toasts
    = (Normal (FieldsByPattern object), toasts) /\
    object !! pattern = Some (Some value).
Proof.
  unfold fetchFields, try_catch, bind, await_all. rewrite Hfulfilled.
  eexists. split; [reflexivity|].
  rewrite (reduce_last _ _ 0 ∅ pattern index Hat Hlast). simpl.
  assert (Hp : imap (fun index pattern => http_get index pattern signal)
                 (to_patterns indexPatterns) !! index
               = Some (http_get index pattern signal)).
  { rewrite list_lookup_imap, Hat. reflexivity. }
  destruct (first_rejection_None _ Hfulfilled index _ Hp) as (v & Hful & Hlookup).
  rewrite Hlookup. congruence.
Qed.

(** X10: cancelling is silent and failing is not, whichever request fails
    first. When some request is rejected, every rejection carries an error
    object, and the rejections are either all named AbortError or none of
    them is, the result is the empty array, with no toast in the first
    case and with exactly one more toast, for one of the rejections, in
    the second. *)
Theorem fetchFields_toast_unless_aborted
    (indexPatterns : IndexPatterns) (signal : option AbortSignal) (toasts : list Toast)
    (aborted : bool)
    (Hsome : exists index pattern e,
        to_patterns indexPatterns !! index = Some pattern /\
        settlement (http_get index pattern signal) = Rejected e)
    (Hall : forall index pattern reason,
        to_patterns indexPatterns !! index = Some pattern ->
        settlement (http_get index pattern signal) = RejectedWith reason ->
        exists e, reason = ReasonError e /\ String.eqb (name e) "AbortError" = aborted) :
  exists index pattern e,
    to_patterns indexPatterns !! index = Some pattern /\
    settlement (http_get index pattern signal) = Rejected e /\
    fetchFields Fields AbortSignal http_get i18n_translate indexPatterns signal toasts
    = (Normal EmptyArray,
       if aborted then toasts else toasts ++ [load_error_toast i18n_translate e]).
Proof.
  destruct Hsome as (index0 & pattern0 & e0 & Hat0 & Hrej0).
  assert (Hp0 : imap (fun index pattern => http_get index pattern signal)
                  (to_patterns indexPatterns) !! index0
                = Some (http_get index0 pattern0 signal)).
  { rewrite list_lookup_imap, Hat0. reflexivity. }
  destruct (rejection_caught _ index0 _ _ Hp0 Hrej0) as (t & reason & Hfirst).
  destruct (first_rejection_Some _ t reason Hfirst) as (index & p & Hp & Hrej & _).
  rewrite list_lookup_imap in Hp.
  destruct (to_patterns indexPatterns !! index) as [pattern|] eqn:Hat; [|discriminate].
  injection Hp as <-.
  destruct (Hall index pattern reason Hat Hrej) as (e & -> & Hname).
  exists index, pattern, e. split; [exact Hat|]. split; [exact Hrej|].
  unfold fetchFields, try_catch, bind, await_all. rewrite Hfirst.
  unfold throw, as_object, addDanger, modify, ret.
  rewrite Hname. destruct aborted; reflexivity.
Qed.

(** Two requests, both fulfilled. *)
Example fetchFields_two_patterns :
  fetchFields nat unit
    (fun index pattern _ =>
       {| settled_at := index; settlement := Fulfilled (String.length pattern) |})
    (fun _ defaultMessage => defaultMessage)
    (AnArray ["a*"; "logs-*"]) None []
  = (Normal (FieldsByPattern (<["logs-*" := Some 6%nat]> (<["a*" := Some 2%nat]> ∅))), []).
Proof. reflexivity. Qed.

(** Two requests, both rejected: the later one in the array rejects first,
    with an ordinary error, and that is the one the toast reports. *)
Example fetchFields_first_rejection_wins :
  fetchFields nat unit
    (fun index pattern _ =>
       match index with
       | O => {| settled_at := 5;
                 settlement := Rejected {| name := "AbortError"; message := "aborted" |} |}
       | _ => {| settled_at := 2;
                 settlement := Rejected {| name := "Error"; message := "Not Found" |} |}
       end)
    (fun _ defaultMessage => defaultMessage)
    (AnArray ["a*"; "logs-*"]) None []
  = (Normal EmptyArray,
     [{| title := "Unable to load index_pattern fields"; text := "Not Found" |}]).
Proof. reflexivity. Qed.

(** An aborted request: the empty array and no toast. *)
Example fetchFields_aborted :
  fetchFields nat unit
    (fun index pattern _ =>
       {| settled_at := 1;
          settlement := Rejected {| name := "AbortError"; message := "aborted" |} |})
    (fun _ defaultMessage => defaultMessage)
    (NotAnArray "logs-*") (Some tt) []
  = (Normal EmptyArray, []).
Proof. reflexivity. Qed.

End FetchFieldsProperties.

Section FetchFieldsClients.

Import FetchFields.

Lemma fetchFields_never_rejects_witness :
  exists result toasts',
    fetchFields nat unit
      (fun index pattern _ =>
         match index with
         | O => {| settled_at := 1;
                   settlement := Rejected {| name := "Error"; message := "Not Found" |} |}
         | _ => {| settled_at := 5; settlement := RejectedWith ReasonNullish |}
         end)
      (fun _ defaultMessage => defaultMessage)
      (AnArray ["a*"; "logs-*"]) None []
    = (Normal result, toasts').
Proof.
  apply (fetchFields_never_rejects
           (fun index pattern _ =>
              match index with
              | O => {| settled_at := 1;
                        settlement :=
                          Rejected {| name := "Error"; message := "Not Found" |} |}
              | _ => {| settled_at := 5; settlement := RejectedWith ReasonNullish |}
              end)
           (fun _ defaultMessage => defaultMessage)
           (AnArray ["a*"; "logs-*"]) None []).
  intros t. vm_compute. discriminate.
Defined.

Lemma fetchFields_keys_are_patterns_witness :
  exists object : gmap string (option nat),
    fetchFields nat unit
      (fun index pattern _ =>
         {| settled_at := index; settlement := Fulfilled (String.length pattern) |})
      (fun _ defaultMessage => defaultMessage)
      (AnArray ["a*"; "logs-*"; "a*"]) None []
    = (Normal (FieldsByPattern object), []) /\
    dom object = list_to_set ["a*"; "logs-*"; "a*"] /\
    size object = 2%nat.
Proof.
  apply (fetchFields_keys_are_patterns
           (fun index pattern _ =>
              {| settled_at := index; settlement := Fulfilled (String.length pattern) |})
           (fun _ defaultMessage => defaultMessage)
           (AnArray ["a*"; "logs-*"; "a*"]) None []).
  reflexivity.
Defined.

Lemma fetchFields_last_duplicate_wins_witness :
  exists object : gmap string (option nat),
    fetchFields nat unit
      (fun index pattern _ => {| settled_at := 0; settlement := Fulfilled index |})
      (fun _ defaultMessage => defaultMessage)
      (AnArray ["a*"; "logs-*"; "a*"]) None []
    = (Normal (FieldsByPattern object), []) /\
    object !! "a*" = Some (Some 2%nat).
Proof.
  apply (fetchFields_last_duplicate_wins
           (fun index pattern _ => {| settled_at := 0; settlement := Fulfilled index |})
           (fun _ defaultMessage => defaultMessage)
           (AnArray ["a*"; "logs-*"; "a*"]) None [] 2 "a*" 2%nat).
  - reflexivity.
  - reflexivity.
  - intros [|[|[|later]]] Hlater; simpl; [lia | lia | lia | discriminate].
  - reflexivity.
Defined.

Lemma fetchFields_toast_unless_aborted_witness :
  exists index pattern e,
    [ "a*"; "logs-*" ] !! index = Some pattern /\
    settlement
      (match index with
       | O => {| settled_at := 1; settlement := Fulfilled 7%nat |}
       | _ => {| settled_at := 2;
                 settlement := Rejected {| name := "AbortError"; message := "aborted" |} |}
       end) = Rejected e /\
    fetchFields nat unit
      (fun index pattern _ =>
         match index with
         | O => {| settled_at := 1; settlement := Fulfilled 7%nat |}
         | _ => {| settled_at := 2;
                   settlement := Rejected {| name := "AbortError"; message := "aborted" |} |}
         end)
      (fun _ defaultMessage => defaultMessage)
      (AnArray ["a*"; "logs-*"]) (Some tt) []
    = (Normal EmptyArray, []).
Proof.
  apply (fetchFields_toast_unless_aborted
           (fun index pattern _ =>
              match index with
              | O => {| settled_at := 1; settlement := Fulfilled 7%nat |}
              | _ => {| settled_at := 2;
                        settlement :=
                          Rejected {| name := "AbortError"; message := "aborted" |} |}
              end)
           (fun _ defaultMessage => defaultMessage)
           (AnArray ["a*"; "logs-*"]) (Some tt) [] true).
  - exists 1%nat, "logs-*", {| name := "AbortError"; message := "aborted" |}.
    split; reflexivity.
  - intros [|[|index]] pattern reason; simpl; intros Hat Hrej;
      [discriminate Hrej | injection Hrej as <-; eauto | discriminate Hat].
Defined.

End FetchFieldsClients.

(** * Properties of the filter group *)

Section FilterGroupProperties.

Import FilterGroup.

Variables (LOCATION PORT SCHEME TAGS : string).

(** X12: the popovers rendered have pairwise distinct keys: the location
    popover alone on the monitor page, and the location, port, scheme and
    tags popovers, in this order, elsewhere. *)
Theorem popover_keys_distinct
    (overviewFilters : OverviewFilters) (loading : bool) (selected : SelectedFilters)
    (isMonitorPage : bool) :
  NoDup (map fst (FilterGroupComponent LOCATION PORT SCHEME TAGS
                    overviewFilters loading selected isMonitorPage)) /\
  map fst (FilterGroupComponent LOCATION PORT SCHEME TAGS
             overviewFilters loading selected isMonitorPage)
  = (if isMonitorPage then ["location"] else ["location"; "port"; "scheme"; "tags"]) /\
  Forall (fun child => fst child = id (snd child))
    (FilterGroupComponent LOCATION PORT SCHEME TAGS
       overviewFilters loading selected isMonitorPage).
Proof.
  destruct isMonitorPage; cbn.
  - split; [|split; [reflexivity | repeat constructor]].
    apply NoDup_singleton.
  - split; [|split; [reflexivity | repeat constructor]].
    apply (bool_decide_unpack _). vm_compute. exact I.
Qed.

(** X13: the location popover comes first and has no [disabled] property;
    every other popover has one, and is disabled exactly when it has no
    items to offer. All of them carry the component's [loading] flag. *)
Theorem popover_disabled_iff_no_items
    (overviewFilters : OverviewFilters) (loading_ : bool) (selected : SelectedFilters)
    (isMonitorPage : bool) :
  exists (location_ : FilterPopoverProps) (others : list FilterPopoverProps),
    filterPopoverProps LOCATION PORT SCHEME TAGS
      overviewFilters loading_ selected isMonitorPage
    = location_ :: others /\
    id location_ = "location" /\
    disabled location_ = None /\
    loading location_ = loading_ /\
    Forall (fun item =>
              loading item = loading_ /\
              exists flag : bool,
                disabled item = Some flag /\ (flag = true <-> items item = []))
      others.
Proof.
  assert (Hlen : forall (A : Type) (l : list A), (length l =? 0)%nat = true <-> l = []).
  { intros A [|x l]; simpl; split; congruence. }
  unfold filterPopoverProps. do 2 eexists. split; [reflexivity|]. cbn.
  split; [reflexivity|]. split; [reflexivity|]. split; [reflexivity|].
  destruct isMonitorPage; cbn [negb]; [constructor|].
  repeat (apply Forall_cons; split; [split; [reflexivity | eexists; split; [reflexivity|]]|]);
    [| apply Hlen | apply Hlen | apply Forall_nil_2].
  cbn. rewrite Hlen. destruct (ports overviewFilters); simpl; split; intros H;
    (reflexivity || discriminate H).
Qed.

(** X14: elsewhere than on the monitor page the port popover offers one
    label per port, the decimal text of the port number, and the labels
    are distinct exactly when the ports are. *)
Theorem port_labels_follow_ports
    (overviewFilters : OverviewFilters) (loading : bool) (selected : SelectedFilters) :
  exists location_ port_ scheme_ tags_,
    filterPopoverProps LOCATION PORT SCHEME TAGS overviewFilters loading selected false
    = [location_; port_; scheme_; tags_] /\
    fieldName port_ = "url.port" /\
    items port_ = map toString (ports overviewFilters) /\
    length (items port_) = length (ports overviewFilters) /\
    (NoDup (items port_) <-> NoDup (ports overviewFilters)).
Proof.
  do 4 eexists. split; [reflexivity|]. cbn.
  split; [reflexivity|]. split; [reflexivity|]. split; [apply length_map|].
  apply (NoDup_fmap toString).
Qed.

End FilterGroupProperties.
